(** * A code-editing agent: tool functions and inference loop of [main_gui.py]

    The development embeds the three file tools ([read_file], [list_files],
    [edit_file] with its helper [create_new_file]), the tool registry and the
    recursive inference loop [run_inference_thread] as functions over an
    explicit filesystem and application state, and proves the behavioural
    properties of the specification against them.

    Modelling conventions.
    - A Python [str] is a [string]; one character of the model stands for one
      character of the Python string.  File contents are the decoded text the
      program sees through [read_text]/[write_text]: every text is taken to
      be one that the codec accepts.  Python reads a carriage return, alone
      or before a line feed, as a line feed; this translation is not
      represented, so the content of a file stands for its text as it is
      read, and a statement on reading back what was written is made for
      texts without carriage return only.
    - The filesystem is a finite map from canonical absolute paths (lists of
      component names below the root) to nodes; it holds regular files and
      directories.  Symbolic links and permission bits are not represented, so
      [Path.resolve] is the lexical normalisation against the working
      directory and the only I/O errors are the structural ones ([mkdir] or
      [write_text] hitting a node of the wrong kind); a write that fails
      after the file was opened is not represented, so nothing is stated on
      the filesystem after an answer that an exception handler makes.
    - Exceptions are values of type [exn]; a [try]/[except] block is the
      combinator [try_except]. *)

From Stdlib Require Import Ascii.
From stdpp Require Import gmap strings list pretty.

Local Open Scope nat_scope.

(** ** Python string operations used by the tools *)

Module Py.

(** [s.startswith(p)] *)
Fixpoint startswith (p s : string) : bool :=
  match p, s with
  | EmptyString, _ => true
  | String a p', String b s' => if decide (a = b) then startswith p' s' else false
  | String _ _, EmptyString => false
  end.

(** [sub in s] *)
Fixpoint contains (sub s : string) : bool :=
  startswith sub s ||
  match s with
  | EmptyString => false
  | String _ s' => contains sub s'
  end.

(** [s[n:]] *)
Fixpoint drop (n : nat) (s : string) : string :=
  match n, s with
  | S k, String _ s' => drop k s'
  | _, _ => s
  end.

(** [s[:n]] *)
Fixpoint take (n : nat) (s : string) : string :=
  match n, s with
  | S k, String c s' => String c (take k s')
  | _, _ => EmptyString
  end.

(** [s.replace(old, new)] for a non-empty [old]: scan left to right,
    replace each occurrence found and continue after it.  [skip] counts the
    characters of the current occurrence still to be passed over. *)
Fixpoint replace_from (old new : string) (skip : nat) (s : string) : string :=
  match s with
  | EmptyString => EmptyString
  | String c s' =>
      match skip with
      | S k => replace_from old new k s'
      | O =>
          if startswith old s
          then new +:+ replace_from old new (String.length old - 1) s'
          else String c (replace_from old new 0 s')
      end
  end.

(** [s.replace("", new)]: [new] before every character and at the end. *)
Fixpoint interleave (new s : string) : string :=
  match s with
  | EmptyString => new
  | String c s' => new +:+ String c (interleave new s')
  end.

(** [s.replace(old, new)] *)
Definition replace (s old new : string) : string :=
  match old with
  | EmptyString => interleave new s
  | String _ _ => replace_from old new 0 s
  end.

(** [s.split(old)] for a non-empty [old], with the same scan as [replace]:
    the pieces between the occurrences that [replace] rewrites. *)
Fixpoint split_from (old : string) (skip : nat) (s : string) : list string :=
  match s with
  | EmptyString => [EmptyString]
  | String c s' =>
      match skip with
      | S k => split_from old k s'
      | O =>
          if startswith old s
          then EmptyString :: split_from old (String.length old - 1) s'
          else match split_from old 0 s' with
               | p :: ps => String c p :: ps
               | [] => [String c EmptyString]
               end
      end
  end.

(** [sep.join(pieces)] *)
Fixpoint join (sep : string) (pieces : list string) : string :=
  match pieces with
  | [] => EmptyString
  | [p] => p
  | p :: ps => p +:+ sep +:+ join sep ps
  end.

(** Characters removed by [str.strip()]: the white space of [str.isspace]
    among the first 256 code points. *)
Definition isspace (c : ascii) : bool :=
  let n := nat_of_ascii c in
  ((9 <=? n) && (n <=? 13)) || ((28 <=? n) && (n <=? 32))
  || (n =? 133) || (n =? 160).

Fixpoint lstrip (s : string) : string :=
  match s with
  | String c s' => if isspace c then lstrip s' else s
  | EmptyString => EmptyString
  end.

(** [rstrip] keeps a character when it is not white space or when something
    is kept after it. *)
Fixpoint rstrip (s : string) : string :=
  match s with
  | EmptyString => EmptyString
  | String c s' =>
      match rstrip s' with
      | EmptyString => if isspace c then EmptyString else String c EmptyString
      | r => String c r
      end
  end.

(** [s.strip()] *)
Definition strip (s : string) : string := rstrip (lstrip s).

(** [list(s)]: the characters of [s], each as a string. *)
Fixpoint chars (s : string) : list string :=
  match s with
  | EmptyString => []
  | String c s' => String c EmptyString :: chars s'
  end.

End Py.

(** ** Characters and literals that cannot be typed inside a string *)

Definition LF : string := String (ascii_of_nat 10) EmptyString.
Definition TAB : string := String (ascii_of_nat 9) EmptyString.
Definition QUOTE : string := String (ascii_of_nat 34) EmptyString.
Definition BACKSLASH : string := String (ascii_of_nat 92) EmptyString.
Definition CR : string := String (ascii_of_nat 13) EmptyString.

(** ** Paths *)

(** A canonical absolute path: the component names below the root. *)
Abbreviation abs_path := (list string).

(** The parts of a path string separated by [/]. *)
Fixpoint segments (s : string) : list string :=
  match s with
  | EmptyString => [EmptyString]
  | String c s' =>
      if decide (c = ascii_of_nat 47) then EmptyString :: segments s'
      else match segments s' with
           | seg :: rest => String c seg :: rest
           | [] => [String c EmptyString]
           end
  end.

Definition is_absolute (s : string) : bool := Py.startswith "/" s.

(** One step of the canonicalisation: [rcur] is the path reached so far, last
    component first. *)
Definition walk_step (rcur : list string) (seg : string) : list string :=
  if decide (seg = "") then rcur
  else if decide (seg = ".") then rcur
  else if decide (seg = "..") then tail rcur
  else seg :: rcur.

(** [Path(p).resolve()] in a process whose working directory is [cwd], on a
    filesystem without symbolic links: the lexical normalisation.  With
    links the call follows them; the theorems take the outcome of the
    containment check as a hypothesis or hold whatever it is. *)
Definition resolve (cwd : abs_path) (p : string) : abs_path :=
  rev (fold_left walk_step (segments p) (if is_absolute p then [] else rev cwd)).

(** [a.is_relative_to(b)] on canonical paths. *)
Definition is_relative_to (a b : abs_path) : bool := bool_decide (b `prefix_of` a).

(** [str(p)] of a canonical absolute path. *)
Definition path_str (p : abs_path) : string := "/" +:+ Py.join "/" p.

(** [p.parent] *)
Definition parent (p : abs_path) : abs_path := removelast p.

(** The anchor of a pure POSIX path: exactly two leading slashes are kept,
    any other number of them is one root. *)
Definition anchor (s : string) : string :=
  if Py.startswith "///" s then "/"
  else if Py.startswith "//" s then "//"
  else if Py.startswith "/" s then "/"
  else "".

(** The parts that [Path(s)] keeps: empty and [.] segments are dropped,
    [..] stays. *)
Definition pure_parts (s : string) : list string :=
  filter (λ seg, seg ≠ "" ∧ seg ≠ ".") (segments s).

(** [str(Path(s) / name)] for the name of a directory entry. *)
Definition joinpath_str (s name : string) : string :=
  anchor s +:+ Py.join "/" (pure_parts s ++ [name]).

(** ** The filesystem *)

Inductive node :=
  | File (content : string)
  | Dir.

Abbreviation fs := (gmap (list string) node).

(** The root always is a directory. *)
Definition node_at (σ : fs) (p : abs_path) : option node :=
  match p with
  | [] => Some Dir
  | _ => σ !! p
  end.

Definition exists_ (σ : fs) (p : abs_path) : bool :=
  match node_at σ p with Some _ => true | None => false end.

Definition is_file (σ : fs) (p : abs_path) : bool :=
  match node_at σ p with Some (File _) => true | _ => false end.

Definition is_dir (σ : fs) (p : abs_path) : bool :=
  match node_at σ p with Some Dir => true | _ => false end.

(** The entries of directory [d], in the order of the map's keys (the order
    of [iterdir] is arbitrary): name and whether the entry is a directory. *)
Definition entry_of (d : abs_path) (kv : list string * node) : option (string * bool) :=
  match kv with
  | (p, n) =>
      if decide (p ≠ [] ∧ parent p = d)
      then Some (List.last p "", match n with Dir => true | File _ => false end)
      else None
  end.

Definition iterdir (σ : fs) (d : abs_path) : list (string * bool) :=
  omap (entry_of d) (map_to_list σ).

(** ** Exceptions and the I/O monad *)

Inductive exn :=
  | FileNotFoundError (msg : string)
  | PermissionError (msg : string)
  | OtherException (msg : string).

(** [str(e)] *)
Definition exn_str (e : exn) : string :=
  match e with
  | FileNotFoundError m | PermissionError m | OtherException m => m
  end.

(** A computation reads and updates the filesystem and ends with a value or
    with a raised exception; what it wrote before raising stays written. *)
Definition io (A : Type) : Type := fs → (exn + A) * fs.

Definition ret {A} (a : A) : io A := λ σ, (inr a, σ).
Definition raise {A} (e : exn) : io A := λ σ, (inl e, σ).
Definition bind {A B} (m : io A) (k : A → io B) : io B :=
  λ σ, match m σ with
       | (inr a, σ') => k a σ'
       | (inl e, σ') => (inl e, σ')
       end.
Definition get_fs : io fs := λ σ, (inr σ, σ).

Notation "'let!' x ':=' m 'in' k" := (bind m (λ x, k))
  (at level 10, x name, m at level 100, k at level 200).
Notation "m ';;' k" := (bind m (λ _, k))
  (at level 100, k at level 200, right associativity).

(** [try: body except ...: return handler(e)] where the body and every
    handler return a string. *)
Definition try_except (body : io string) (handler : exn → string)
    (σ : fs) : string * fs :=
  match body σ with
  | (inr s, σ') => (s, σ')
  | (inl e, σ') => (handler e, σ')
  end.

(** [p.read_text(encoding='utf-8')]: the content of the node is the text of
    the file as it is read, line ends translated. *)
Definition read_text (p : abs_path) : io string :=
  λ σ, match node_at σ p with
       | Some (File c) => (inr c, σ)
       | Some Dir =>
           (inl (OtherException ("[Errno 21] Is a directory: '" +:+ path_str p +:+ "'")), σ)
       | None =>
           (inl (FileNotFoundError
                   ("[Errno 2] No such file or directory: '" +:+ path_str p +:+ "'")), σ)
       end.

(** [p.write_text(content, encoding='utf-8')]: truncates the file when it
    exists and creates it otherwise; the directory that is to hold a new file
    must exist.  The text written is the text that is read back when it
    holds no carriage return.  A call that fails after it has opened the
    file is not represented. *)
Definition write_text (p : abs_path) (content : string) : io unit :=
  λ σ, match node_at σ p with
       | Some Dir =>
           (inl (OtherException ("[Errno 21] Is a directory: '" +:+ path_str p +:+ "'")), σ)
       | Some (File _) => (inr (), <[p := File content]> σ)
       | None =>
           match node_at σ (parent p) with
           | Some Dir => (inr (), <[p := File content]> σ)
           | Some (File _) =>
               (inl (OtherException
                       ("[Errno 20] Not a directory: '" +:+ path_str p +:+ "'")), σ)
           | None =>
               (inl (FileNotFoundError
                       ("[Errno 2] No such file or directory: '" +:+ path_str p +:+ "'")), σ)
           end
       end.

(** The non-empty prefixes of [p], shortest first. *)
Definition ancestors_and_self (p : abs_path) : list abs_path :=
  (λ n, take n p) <$> seq 1 (length p).

(** [mkdir] of one directory whose parent exists, keeping what is there. *)
Definition mkdir_one (τ : fs) (q : abs_path) : fs :=
  match τ !! q with
  | None => <[q := Dir]> τ
  | Some _ => τ
  end.

(** [d.mkdir(parents=True, exist_ok=True)]: every missing directory on the way
    to [d] is created; a regular file at [d] or above it makes the call raise
    before anything is created. *)
Definition mkdir_parents (d : abs_path) : io unit :=
  λ σ, if is_file σ d
       then (inl (OtherException ("[Errno 17] File exists: '" +:+ path_str d +:+ "'")), σ)
       else if bool_decide (Exists (λ q, is_file σ q = true) (ancestors_and_self d))
       then (inl (OtherException ("[Errno 20] Not a directory: '" +:+ path_str d +:+ "'")), σ)
       else (inr (), fold_left mkdir_one (ancestors_and_self d) σ).

(** ** JSON text of a list of strings *)

Definition hex_digit (n : nat) : string :=
  String (ascii_of_nat (if n <? 10 then 48 + n else 87 + n)) EmptyString.

(** [json.dumps] of one character inside a string ([ensure_ascii=True]):
    printable ASCII other than the quote and the backslash is kept, the rest
    is escaped. *)
Definition json_escape_char (c : ascii) : string :=
  let n := nat_of_ascii c in
  if n =? 34 then BACKSLASH +:+ QUOTE
  else if n =? 92 then BACKSLASH +:+ BACKSLASH
  else if n =? 10 then BACKSLASH +:+ "n"
  else if n =? 13 then BACKSLASH +:+ "r"
  else if n =? 9 then BACKSLASH +:+ "t"
  else if n =? 12 then BACKSLASH +:+ "f"
  else if n =? 8 then BACKSLASH +:+ "b"
  else if (32 <=? n) && (n <=? 126) then String c EmptyString
  else BACKSLASH +:+ "u00" +:+ hex_digit (n / 16) +:+ hex_digit (n mod 16).

Fixpoint json_escape (s : string) : string :=
  match s with
  | EmptyString => EmptyString
  | String c s' => json_escape_char c +:+ json_escape s'
  end.

Definition json_string (s : string) : string := QUOTE +:+ json_escape s +:+ QUOTE.

(** [json.dumps(items)] for a list of strings. *)
Definition json_dumps (items : list string) : string :=
  "[" +:+ Py.join ", " (map json_string items) +:+ "]".

(** ** Tool functions *)

(** The cap of [read_file], 10000 characters. *)
Definition max_len : nat := 100 * 100.
Definition max_items : nat := 200.
Definition file_truncated : string := LF +:+ LF +:+ "[... File truncated due to length ...]".
Definition listing_truncated : string := "[... Directory listing truncated due to size ...]".

(** The text of one directory entry: the caller's path joined with the name
    of the entry, and a slash after a directory. *)
Definition render_entry (path : string) (item : string * bool) : string :=
  let rel_path := joinpath_str path item.1 in
  if item.2 then rel_path +:+ "/" else rel_path.

(** The loop of [list_files] over the directory entries: [count] entries
    have been rendered into [items] so far. *)
Fixpoint list_loop (path : string) (entries : list (string * bool))
    (count : nat) (items : list string) : list string :=
  match entries with
  | [] => items
  | item :: rest =>
      if max_items <=? count then items ++ [listing_truncated]
      else list_loop path rest (S count) (items ++ [render_entry path item])
  end.

Section Tools.

(** The working directory of the process, [Path.cwd()]. *)
Variable cwd : abs_path.

Definition access_denied (verb : string) : string :=
  "Error: Access denied. Can only " +:+ verb
  +:+ " files within the current project directory: " +:+ path_str cwd.

Definition read_file (path : string) : fs → string * fs :=
  try_except
    (let file_path := resolve cwd path in
     if negb (is_relative_to file_path cwd) then ret (access_denied "read")
     else
       let! σ := get_fs in
       if negb (is_file σ file_path)
       then ret ("Error: Path '" +:+ path +:+ "' is not a file or does not exist.")
       else
         let! content := read_text file_path in
         if max_len <? String.length content
         then ret (Py.take max_len content +:+ file_truncated)
         else ret content)
    (λ e, match e with
          | FileNotFoundError _ => "Error: File not found at path '" +:+ path +:+ "'"
          | PermissionError _ => "Error: Permission denied to read file '" +:+ path +:+ "'"
          | _ => "Error reading file '" +:+ path +:+ "': " +:+ exn_str e
          end).

Definition list_files (path : string) : fs → string * fs :=
  try_except
    (let base_path := resolve cwd path in
     if negb (is_relative_to base_path cwd) then ret (access_denied "list")
     else
       let! σ := get_fs in
       if negb (is_dir σ base_path)
       then ret ("Error: Path '" +:+ path +:+ "' is not a directory or does not exist.")
       else ret (json_dumps (list_loop path (iterdir σ base_path) 0 [])))
    (λ e, match e with
          | FileNotFoundError _ => "Error: Directory not found at path '" +:+ path +:+ "'"
          | PermissionError _ => "Error: Permission denied to list directory '" +:+ path +:+ "'"
          | _ => "Error listing files in '" +:+ path +:+ "': " +:+ exn_str e
          end).

Definition create_new_file (file_path_str content : string) : fs → string * fs :=
  try_except
    (let file_path := resolve cwd file_path_str in
     if negb (is_relative_to file_path cwd) then ret (access_denied "create")
     else
       mkdir_parents (parent file_path) ;;
       write_text file_path content ;;
       ret ("Successfully created file " +:+ file_path_str))
    (λ e, match e with
          | PermissionError _ =>
              "Error: Permission denied to create file or directory for '"
              +:+ file_path_str +:+ "'"
          | _ => "Error creating file '" +:+ file_path_str +:+ "': " +:+ exn_str e
          end).

(** The filesystem after [path] was created with [content] by
    [create_new_file]: the missing directories above it, then the file. *)
Definition created (σ : fs) (path content : string) : fs :=
  <[resolve cwd path := File content]>
    (fold_left mkdir_one (ancestors_and_self (parent (resolve cwd path))) σ).

(** The unescaping applied to [old_str] and [new_str]: a backslash followed
    by [n], [t] or a quote becomes the newline, the tab, the quote. *)
Definition unescape (s : string) : string :=
  Py.replace
    (Py.replace (Py.replace s (BACKSLASH +:+ "n") LF) (BACKSLASH +:+ "t") TAB)
    (BACKSLASH +:+ QUOTE) QUOTE.

Definition no_op_edit : string :=
  "Error: 'old_str' and 'new_str' must be different for editing.".

Definition file_not_found (path : string) : string :=
  "Error: File not found at path '" +:+ path
  +:+ "' and 'old_str' is not empty (cannot replace in non-existent file).".

(** The two answers to a pattern that is not in the file: with the stripped
    [old_str] as a suggestion when that one is in the file, without
    otherwise. *)
Definition pattern_not_found (path old_str original_content : string) : string :=
  if Py.contains (Py.strip old_str) original_content
  then "Error: 'old_str' ('" +:+ old_str
       +:+ "') not found exactly in file. Did you mean '"
       +:+ Py.strip old_str +:+ "' (ignoring leading/trailing whitespace)?"
  else "Error: 'old_str' ('" +:+ old_str
       +:+ "') not found exactly in file '" +:+ path
       +:+ "'. Replacement aborted.".

Definition no_change_warning (path old_str new_str : string) : string :=
  "Warning: Replacing '" +:+ old_str +:+ "' with '" +:+ new_str
  +:+ "' resulted in no changes to the file '" +:+ path
  +:+ "'. Check if 'old_str' exists.".

Definition edit_file (path old_str new_str : string) : fs → string * fs :=
  if decide (old_str = new_str) then λ σ, (no_op_edit, σ)
  else if decide (path = "") then λ σ, ("Error: 'path' cannot be empty.", σ)
  else
    try_except
      (let file_path := resolve cwd path in
       if negb (is_relative_to file_path cwd) then ret (access_denied "edit")
       else
         let! σ := get_fs in
         if negb (exists_ σ file_path) then
           if decide (old_str = "")
           then λ τ, let '(r, τ') := create_new_file path new_str τ in (inr r, τ')
           else ret (file_not_found path)
         else if negb (is_file σ file_path)
         then ret ("Error: Path '" +:+ path +:+ "' exists but is not a file.")
         else
           let! original_content := read_text file_path in
           let processed_old_str := unescape old_str in
           let processed_new_str := unescape new_str in
           if negb (bool_decide (processed_old_str = ""))
              && negb (Py.contains processed_old_str original_content)
           then ret (pattern_not_found path old_str original_content)
           else
             let new_content :=
               Py.replace original_content processed_old_str processed_new_str in
             if negb (bool_decide (processed_old_str = ""))
                && bool_decide (new_content = original_content)
             then ret (no_change_warning path old_str new_str)
             else
               write_text file_path new_content ;;
               ret "OK")
      (λ e, match e with
            | FileNotFoundError _ => "Error: File not found at path '" +:+ path +:+ "'"
            | PermissionError _ =>
                "Error: Permission denied to read or write file '" +:+ path +:+ "'"
            | _ => "Error editing file '" +:+ path +:+ "': " +:+ exn_str e
            end).

End Tools.

(** ** Conversation entries and the application state *)

Record tool_call := ToolCall {
  id : string;
  function_name : string;
  function_arguments : string;
}.

(** The assistant message of a completion: optional text and the tool calls
    (none when the field is [None] or empty). *)
Record response := Response {
  content : option string;
  tool_calls : list tool_call;
}.

(** The entries of [conversation_history]: the user dictionary, the response
    message stored whole, and the tool-result dictionary. *)
Inductive message :=
  | UserMessage (text : string)
  | AssistantMessage (response_message : response)
  | ToolMessage (tool_call_id name result : string).

(** What [client.chat.completions.create] does on a history: it returns a
    completion, raises [APIError]/[RateLimitError], or raises something else. *)
Inductive api_result :=
  | Completion (response_message : response)
  | RaisedAPIError (e : string)
  | RaisedException (e : string).

(** A value decoded from JSON is a string or something else. *)
Inductive pyval :=
  | PyStr (s : string)
  | PyOther.

(** The result of [json.loads]: a decoding error, a value that is not an
    object, an object as a dictionary, or another exception with its text
    ([ValueError] on an integer literal with too many digits,
    [RecursionError] on a payload nested too deep). *)
Inductive parsed :=
  | JSONDecodeError
  | NotADict
  | Dict (kw : gmap string pyval)
  | LoadsRaised (e : string).

Inductive tool := ReadFile | ListFiles | EditFile.

(** The registry mapping tool names to functions. *)
Definition available_tools : gmap string tool :=
  {[ "read_file" := ReadFile; "list_files" := ListFiles; "edit_file" := EditFile ]}.

(** The application: the filesystem it acts on, the conversation, the queue of
    (role, content, tag) entries for the display, whether the input field and
    the send button are enabled, the error dialogs shown, and the histories
    submitted to the completion endpoint so far, oldest first. *)
Record app := App {
  files : fs;
  conversation_history : list message;
  message_queue : list (string * string * option string);
  input_enabled : bool;
  error_boxes : list (string * string);
  requests : list (list message);
}.

Definition add_message_to_display (role text : string) (tag : option string)
    (a : app) : app :=
  App (files a) (conversation_history a) (message_queue a ++ [(role, text, tag)])
      (input_enabled a) (error_boxes a) (requests a).

Definition set_files (σ : fs) (a : app) : app :=
  App σ (conversation_history a) (message_queue a) (input_enabled a)
      (error_boxes a) (requests a).

Definition extend_history (ms : list message) (a : app) : app :=
  App (files a) (conversation_history a ++ ms) (message_queue a) (input_enabled a)
      (error_boxes a) (requests a).

Definition set_input (enabled : bool) (a : app) : app :=
  App (files a) (conversation_history a) (message_queue a) enabled
      (error_boxes a) (requests a).

Definition showerror (title text : string) (a : app) : app :=
  App (files a) (conversation_history a) (message_queue a) (input_enabled a)
      (error_boxes a ++ [(title, text)]) (requests a).

Definition log_request (a : app) : app :=
  App (files a) (conversation_history a) (message_queue a) (input_enabled a)
      (error_boxes a) (requests a ++ [conversation_history a]).

Definition max_display_len : nat := 500.

(** A tool-result entry answers a tool call when it carries the id and the
    tool name of the call. *)
Definition answers (tc : tool_call) (m : message) : Prop :=
  ∃ result, m = ToolMessage (id tc) (function_name tc) result.

(** ** The inference loop *)

Section Agent.

Variable cwd : abs_path.

(** The completion endpoint, as a function of the history submitted. *)
Variable create : list message → api_result.

(** [json.loads] on the raw argument payload of a tool call. *)
Variable json_loads : string → parsed.

(** The text of the [TypeError] raised when the decoded arguments do not fit
    the signature of the tool (not a dictionary, a missing or an unexpected
    keyword). *)
Variable type_error_text : string → parsed → string.

(** What a tool does when an argument is not a string: the interpreter
    decides where the function fails and with which text. *)
Variable ill_typed_call : tool → gmap string pyval → fs → string * fs.

(** The call of [function_to_call] with the decoded dictionary as its
    keyword arguments: [None] when binding the keywords to the parameters
    raises [TypeError]. *)
Definition call_with_kwargs (f : tool) (kw : gmap string pyval)
    : option (fs → string * fs) :=
  match f with
  | ReadFile =>
      if decide (dom kw = {["path"]}) then
        match kw !! "path" with
        | Some (PyStr path) => Some (read_file cwd path)
        | _ => Some (ill_typed_call f kw)
        end
      else None
  | ListFiles =>
      if decide (dom kw ⊆ {["path"]}) then
        match kw !! "path" with
        | Some (PyStr path) => Some (list_files cwd path)
        | Some PyOther => Some (ill_typed_call f kw)
        | None => Some (list_files cwd ".")
        end
      else None
  | EditFile =>
      if decide (dom kw = {["path"; "old_str"; "new_str"]}) then
        match kw !! "path", kw !! "old_str", kw !! "new_str" with
        | Some (PyStr path), Some (PyStr old_str), Some (PyStr new_str) =>
            Some (edit_file cwd path old_str new_str)
        | _, _, _ => Some (ill_typed_call f kw)
        end
      else None
  end.

(** The body of the loop over [tool_calls] for one call: the application
    after it and the tool-result entry for the next completion call. *)
Definition execute_tool_call (tc : tool_call) (a : app) : app * message :=
  let a := add_message_to_display "Tool"
             ("Calling: " +:+ function_name tc +:+ "(" +:+ function_arguments tc +:+ ")")
             (Some "Tool") a in
  let '(function_response, a) :=
    match available_tools !! function_name tc with
    | Some function_to_call =>
        match json_loads (function_arguments tc) with
        | JSONDecodeError =>
            let r := "Error: Invalid JSON arguments received for "
                     +:+ function_name tc +:+ ": " +:+ function_arguments tc in
            (r, add_message_to_display "Error" r (Some "Error") a)
        | LoadsRaised e =>
            let r := "Error executing tool " +:+ function_name tc +:+ ": " +:+ e in
            (r, add_message_to_display "Error" r (Some "Error") a)
        | function_args =>
            match match function_args with
                  | Dict kw => call_with_kwargs function_to_call kw
                  | _ => None
                  end with
            | Some run =>
                let '(r, σ) := run (files a) in (r, set_files σ a)
            | None =>
                let r := "Error: Invalid arguments for tool " +:+ function_name tc
                         +:+ ": " +:+ type_error_text (function_name tc) function_args
                         +:+ ". Args received: " +:+ function_arguments tc in
                (r, add_message_to_display "Error" r (Some "Error") a)
            end
        end
    | None =>
        let r := "Error: Tool '" +:+ function_name tc +:+ "' not found." in
        (r, add_message_to_display "Error" r (Some "Error") a)
    end in
  let display_response :=
    if max_display_len <? String.length function_response
    then Py.take max_display_len function_response +:+ " [... result truncated ...]"
    else function_response in
  let a := add_message_to_display "ToolResult" ("Result: " +:+ display_response)
             (Some "ToolResult") a in
  (a, ToolMessage (id tc) (function_name tc) function_response).

(** The loop over [tool_calls], collecting [tool_messages_for_next_call]. *)
Fixpoint execute_tool_calls (tcs : list tool_call) (a : app)
    (tool_messages_for_next_call : list message) : app * list message :=
  match tcs with
  | [] => (a, tool_messages_for_next_call)
  | tc :: rest =>
      let '(a', m) := execute_tool_call tc a in
      execute_tool_calls rest a' (tool_messages_for_next_call ++ [m])
  end.

(** Steps 1 to 4 of a round with tool calls: the response is appended to
    the history, the tools are run in the order of the response, and their
    results are appended. *)
Definition tool_round (response_message : response) (a : app) : app :=
  let a := extend_history [AssistantMessage response_message] a in
  let a := add_message_to_display "Agent"
             "Okay, I need to use some tools..." None a in
  let '(a, tool_messages_for_next_call) :=
    execute_tool_calls (tool_calls response_message) a [] in
  extend_history tool_messages_for_next_call a.

(** The end of a turn on a response without tool calls. *)
Definition final_answer (response_message : response) (a : app) : app :=
  let a := extend_history [AssistantMessage response_message] a in
  let a :=
    match content response_message with
    | Some (String c s) => add_message_to_display "Agent" (String c s) None a
    | _ => add_message_to_display "System"
             "[Model returned no text content]" (Some "System") a
    end in
  set_input true a.

(** The handlers of the two [except] clauses. *)
Definition api_failure (title error_message : string) (a : app) : app :=
  let a := add_message_to_display "Error" error_message (Some "Error") a in
  let a := showerror title error_message a in
  set_input true a.

(** [run_inference_thread]: the history is submitted; a response with tool
    calls is followed by the tool round and the recursive call, a response
    without ends the turn, an exception ends it with an error.  [fuel]
    bounds the depth of the recursion, which the source leaves unbounded
    (the limit that the interpreter puts on its call stack is not
    represented); [None] means the bound was reached. *)
Fixpoint run_inference_thread (fuel : nat) (a : app) : option app :=
  match fuel with
  | O => None
  | S fuel' =>
      match create (conversation_history a) with
      | Completion response_message =>
          let a := log_request a in
          match tool_calls response_message with
          | _ :: _ => run_inference_thread fuel' (tool_round response_message a)
          | [] => Some (final_answer response_message a)
          end
      | RaisedAPIError e =>
          Some (api_failure "API Error" ("OpenAI API Error: " +:+ e) (log_request a))
      | RaisedException e =>
          Some (api_failure "Error" ("An unexpected error occurred: " +:+ e)
                  (log_request a))
      end
  end.

(** The turn that starts in [a] goes through [n] rounds of tool calls and
    then receives a response without tool calls. *)
Fixpoint tool_rounds (n : nat) (a : app) : Prop :=
  match create (conversation_history a) with
  | Completion response_message =>
      match n with
      | O => tool_calls response_message = []
      | S n' =>
          tool_calls response_message ≠ []
          ∧ tool_rounds n' (tool_round response_message (log_request a))
      end
  | _ => False
  end.

(** [send_message_event]: one user turn. *)
Definition send_message_event (fuel : nat) (entry_text : string) (a : app)
    : option app :=
  let user_input := Py.strip entry_text in
  if decide (user_input = "") then Some a
  else
    let a := add_message_to_display "You" user_input None a in
    let a := extend_history [UserMessage user_input] a in
    let a := set_input false a in
    run_inference_thread fuel a.

End Agent.

(** ** A concrete workspace *)

Module Examples.

Definition cwd : abs_path := ["home"; "user"; "project"].

(** The project holds [a.txt] and the directory [sub] with [x.py];
    [/etc/passwd], a file of two lines, lies outside it. *)
Definition disk : fs :=
  list_to_map
    [ (["home"], Dir);
      (["home"; "user"], Dir);
      (["home"; "user"; "project"], Dir);
      (["home"; "user"; "project"; "a.txt"], File "hello");
      (["home"; "user"; "project"; "sub"], Dir);
      (["home"; "user"; "project"; "sub"; "x.py"], File "aaa");
      (["etc"], Dir);
      (["etc"; "passwd"], File ("root" +:+ LF +:+ "daemon")) ].

(** A working directory holding the [n] empty files [f0], [f1], ... *)
Definition crowded (n : nat) : fs :=
  <[cwd := Dir]>
    (list_to_map ((λ i, (cwd ++ ["f" +:+ pretty i], File "")) <$> seq 0 n)).

(** The argument payload with the one key [path]. *)
Definition args_path (p : string) : string :=
  "{" +:+ QUOTE +:+ "path" +:+ QUOTE +:+ ": " +:+ QUOTE +:+ p +:+ QUOTE +:+ "}".

(** A decoder for the payloads of the examples. *)
Definition json_loads (s : string) : parsed :=
  if decide (s = "{}") then Dict ∅
  else if decide (s = args_path "a.txt") then Dict {[ "path" := PyStr "a.txt" ]}
  else if decide (s = "[]") then NotADict
  else JSONDecodeError.

Definition type_error_text (name : string) (args : parsed) : string :=
  name +:+ "() argument after ** must be a mapping".

Definition ill_typed_call (f : tool) (kw : gmap string pyval) (σ : fs) : string * fs :=
  ("Error: argument of the wrong type", σ).

Definition is_assistant (m : message) : bool :=
  match m with AssistantMessage _ => true | _ => false end.

(** An endpoint that asks for two tools in each of its first [n] answers of
    a conversation and then answers with text. *)
Definition create_rounds (n : nat) (history : list message) : api_result :=
  let k := length (filter (λ m, is_assistant m = true) history) in
  if k <? n then
    Completion (Response None
      [ ToolCall ("call_" +:+ pretty k +:+ "a") "read_file" (args_path "a.txt");
        ToolCall ("call_" +:+ pretty k +:+ "b") "list_files" "{}" ])
  else Completion (Response (Some "done") []).

(** The application when the user has just sent [go]. *)
Definition started : app :=
  App disk [UserMessage "go"] [("You", "go", None)] false [] [].

(** A backslash followed by [n], as a model sends it when it escapes twice. *)
Definition escaped_newline : string := BACKSLASH +:+ "n".

(** [lines.txt] holds two lines. *)
Definition disk_with_lines : fs :=
  <[ ["home"; "user"; "project"; "lines.txt"] := File ("one" +:+ LF +:+ "two") ]> disk.

(** [n] copies of a string. *)
Fixpoint copies (n : nat) (s : string) : string :=
  match n with
  | O => ""
  | S k => s +:+ copies k s
  end.

(** [long.txt] holds 10001 characters. *)
Definition disk_with_long : fs :=
  <[ ["home"; "user"; "project"; "long.txt"] := File (copies (S max_len) "a") ]> disk.

(** [notes.txt] holds a backslash followed by [n] between two letters. *)
Definition disk_with_notes : fs :=
  <[ ["home"; "user"; "project"; "notes.txt"] := File ("a" +:+ escaped_newline +:+ "b") ]> disk.

End Examples.

(** ** The refusals of [edit_file] *)

(** The answers with which [edit_file] returns before it creates or writes
    anything: the [return] statements of lines 131, 133, 139, 146, 150, 163,
    165 and 175. *)
Definition refusal (cwd : abs_path) (path old_str new_str r : string) : Prop :=
  r = no_op_edit
  ∨ r = "Error: 'path' cannot be empty."
  ∨ r = access_denied cwd "edit"
  ∨ r = file_not_found path
  ∨ r = "Error: Path '" +:+ path +:+ "' exists but is not a file."
  ∨ (∃ original_content, r = pattern_not_found path old_str original_content)
  ∨ r = no_change_warning path old_str new_str.

(** ** Conditions on the filesystem *)

Definition node_is_dir (n : node) : bool :=
  match n with Dir => true | File _ => false end.

(** Every node lies in a directory. *)
Definition well_formed (σ : fs) : Prop :=
  map_Forall (λ p _, node_at σ (parent p) = Some Dir) σ.

(** The working directory and every directory above it exist. *)
Definition cwd_exists (cwd : abs_path) (σ : fs) : Prop :=
  Forall (λ q, is_Some (σ !! q)) (ancestors_and_self cwd).

(** What [read_file] returns for a file of content [c]. *)
Definition truncated (c : string) : string :=
  if max_len <? String.length c then Py.take max_len c +:+ file_truncated else c.

#[global] Instance node_eq_dec : EqDecision node.
Proof. solve_decision. Defined.

(** ** Conditions on the conversation *)

(** What the display shows of a tool result. *)
Definition displayed (function_response : string) : string :=
  if max_display_len <? String.length function_response
  then Py.take max_display_len function_response +:+ " [... result truncated ...]"
  else function_response.

(** A history in which every response is followed by the answers to its tool
    calls, one for each call and in their order, and in which tool results
    stand nowhere else. *)
Inductive well_answered : list message → Prop :=
  | well_answered_nil : well_answered []
  | well_answered_user text rest :
      well_answered rest → well_answered (UserMessage text :: rest)
  | well_answered_assistant response_message results rest :
      Forall2 answers (tool_calls response_message) results →
      well_answered rest →
      well_answered (AssistantMessage response_message :: results ++ rest).

(** A text of white space only. *)
Fixpoint blank (s : string) : bool :=
  match s with
  | EmptyString => true
  | String c s' => Py.isspace c && blank s'
  end.

(** The last character of a text. *)
Fixpoint last_char (s : string) : option ascii :=
  match s with
  | EmptyString => None
  | String c EmptyString => Some c
  | String _ s' => last_char s'
  end.

(** The application and the tool-result entry after a tool call that failed
    with the text [r] before a tool was run: the call is announced, the
    error is displayed, and the same text is the result. *)
Definition failed_call (tc : tool_call) (r : string) (a : app) : app * message :=
  (add_message_to_display "ToolResult" ("Result: " +:+ displayed r) (Some "ToolResult")
     (add_message_to_display "Error" r (Some "Error")
        (add_message_to_display "Tool"
           ("Calling: " +:+ function_name tc +:+ "(" +:+ function_arguments tc +:+ ")")
           (Some "Tool") a)),
   ToolMessage (id tc) (function_name tc) r).

(** The application and the tool-result entry after a tool call on which
    the tool returned [r] and left the filesystem [σ]. *)
Definition completed_call (tc : tool_call) (r : string) (σ : fs) (a : app)
    : app * message :=
  (add_message_to_display "ToolResult" ("Result: " +:+ displayed r) (Some "ToolResult")
     (set_files σ
        (add_message_to_display "Tool"
           ("Calling: " +:+ function_name tc +:+ "(" +:+ function_arguments tc +:+ ")")
           (Some "Tool") a)),
   ToolMessage (id tc) (function_name tc) r).

(** ** The tool descriptions sent with every request *)

Record property := Property {
  property_name : string;
  property_type : string;
  property_description : string;
}.

(** An entry of [tools_openai_format]: the [function] object with the
    [properties] and the [required] list of its [parameters]. *)
Record function_schema := FunctionSchema {
  name : string;
  description : string;
  properties : list property;
  required : list string;
}.

Definition tools_openai_format : list function_schema :=
  [ FunctionSchema "read_file"
      "Read the contents of a given relative file path. Use this when you want to see what's inside a file. Do not use this with directory names."
      [ Property "path" "string"
          "The relative path of a file in the working directory." ]
      [ "path" ];
    FunctionSchema "list_files"
      "List files and directories at a given relative path. If no path is provided, lists files in the current directory. Directories are marked with a trailing '/'."
      [ Property "path" "string"
          "Optional relative path to list files from. Defaults to current directory '.' if not provided." ]
      [];
    FunctionSchema "edit_file"
      "Make edits to a text file by replacing ALL occurrences of 'old_str' with 'new_str'. 'old_str' and 'new_str' MUST be different. If the file specified with path doesn't exist AND 'old_str' is an empty string, it will be created with 'new_str' as content. USE WITH CAUTION."
      [ Property "path" "string" "The relative path to the file.";
        Property "old_str" "string"
          ("Text to search for. Must match exactly. Use an empty string "
           +:+ QUOTE +:+ QUOTE
           +:+ " to create a new file if it doesn't exist.");
        Property "new_str" "string"
          "Text to replace ALL occurrences of old_str with." ]
      [ "path"; "old_str"; "new_str" ] ].

(** ** The display *)

(** The text widget: the pieces inserted at its end, oldest first, each with
    the tags it was inserted with. *)
Definition text_area : Type := list (string * list string).

(** [_add_message_to_display_internal]: the role and the content are
    inserted at the end, with the tag when one is given.  The configuration
    of the tags, the scrolling and the state of the widget do not touch its
    content. *)
Definition _add_message_to_display_internal (role content : string)
    (tag : option string) (t : text_area) : text_area :=
  match tag with
  | Some (String c s) =>
      t ++ [(role +:+ ": ", [role; String c s]); (content +:+ LF, [String c s])]
  | _ => t ++ [(role +:+ ": ", [role]); (content +:+ LF, [])]
  end.

(** [process_message_queue]: the entries waiting in the queue are taken out
    one by one, oldest first, until the queue is empty. *)
Fixpoint process_message_queue (queue : list (string * string * option string))
    (t : text_area) : list (string * string * option string) * text_area :=
  match queue with
  | [] => ([], t)
  | (role, content, tag) :: queue' =>
      process_message_queue queue' (_add_message_to_display_internal role content tag t)
  end.

(** The characters of the widget. *)
Definition text_of (t : text_area) : string :=
  foldr (λ piece s, piece.1 +:+ s) "" t.

(** The line that an entry of the queue makes. *)
Definition line_of (entry : string * string * option string) : string :=
  entry.1.1 +:+ ": " +:+ entry.1.2 +:+ LF.

(** ** Further examples *)

Module Calls.

(** A payload with the three arguments of [edit_file]. *)
Definition args_edit : string :=
  "{" +:+ QUOTE +:+ "path" +:+ QUOTE +:+ ": " +:+ QUOTE +:+ "new.txt" +:+ QUOTE
  +:+ ", " +:+ QUOTE +:+ "old_str" +:+ QUOTE +:+ ": " +:+ QUOTE +:+ QUOTE
  +:+ ", " +:+ QUOTE +:+ "new_str" +:+ QUOTE +:+ ": " +:+ QUOTE +:+ "hi" +:+ QUOTE
  +:+ "}".

Definition kw_edit : gmap string pyval :=
  {[ "path" := PyStr "new.txt"; "old_str" := PyStr ""; "new_str" := PyStr "hi" ]}.

(** A payload with an integer that [json.loads] refuses to convert. *)
Definition args_digits : string :=
  "{" +:+ QUOTE +:+ "path" +:+ QUOTE +:+ ": 1" +:+ Examples.copies 5000 "0" +:+ "}".

(** A payload with a key that no tool has. *)
Definition args_file : string :=
  "{" +:+ QUOTE +:+ "file" +:+ QUOTE +:+ ": " +:+ QUOTE +:+ "a.txt" +:+ QUOTE +:+ "}".

Definition json_loads (s : string) : parsed :=
  if decide (s = args_edit) then Dict kw_edit
  else if decide (s = args_file) then Dict {[ "file" := PyStr "a.txt" ]}
  else if decide (s = args_digits)
  then LoadsRaised "Exceeds the limit (4300 digits) for integer string conversion: value has 5001 digits; use sys.set_int_max_str_digits() to increase the limit"
  else Examples.json_loads s.

(** Calls of a tool that does not exist, with a payload that is not JSON,
    with one that is not an object, with a key that the tool does not have,
    and three calls that fit their tools. *)
Definition unknown_tool : tool_call := ToolCall "call_1" "delete_file" "{}".
Definition not_json : tool_call := ToolCall "call_2" "read_file" "path=a.txt".
Definition not_an_object : tool_call := ToolCall "call_3" "read_file" "[]".
Definition wrong_key : tool_call := ToolCall "call_4" "read_file" args_file.
Definition too_many_digits : tool_call := ToolCall "call_8" "read_file" args_digits.
Definition read_call : tool_call :=
  ToolCall "call_5" "read_file" (Examples.args_path "a.txt").
Definition list_call : tool_call := ToolCall "call_6" "list_files" "{}".
Definition edit_call : tool_call := ToolCall "call_7" "edit_file" args_edit.

(** The two responses of [Examples.create_rounds 1] in a turn, and the
    application at the end of the turn that they make. *)
Definition first_response : response :=
  Response None
    [ ToolCall "call_0a" "read_file" (Examples.args_path "a.txt");
      ToolCall "call_0b" "list_files" "{}" ].

Definition last_response : response := Response (Some "done") [].

Definition ended : app :=
  final_answer last_response
    (log_request
       (tool_round Examples.cwd Examples.json_loads Examples.type_error_text
          Examples.ill_typed_call first_response (log_request Examples.started))).

(** The application when it has just been started. *)
Definition idle : app := App Examples.disk [] [] true [] [].

(** An endpoint that is down, and the application at the end of the turn
    that it makes. *)
Definition create_down (history : list message) : api_result :=
  RaisedAPIError "Connection error.".

Definition failed : app :=
  api_failure "API Error" "OpenAI API Error: Connection error."
    (log_request Examples.started).

(** The first of the tool descriptions. *)
Definition first_schema : function_schema :=
  default (FunctionSchema "" "" [] []) (head tools_openai_format).

End Calls.

(** * Facts about the string operations *)

Section StringFacts.

Lemma str_app_nil_l (s : string) : "" +:+ s = s.
Proof. reflexivity. Qed.

Lemma str_app_cons (c : ascii) (s t : string) : String c s +:+ t = String c (s +:+ t).
Proof. reflexivity. Qed.

Lemma str_app_nil_r (s : string) : s +:+ "" = s.
Proof. induction s as [|c s IH]; [done|]. by rewrite str_app_cons, IH. Qed.

Lemma str_app_assoc (s t u : string) : (s +:+ t) +:+ u = s +:+ t +:+ u.
Proof. induction s as [|c s IH]; [done|]. by rewrite !str_app_cons, IH. Qed.

Lemma str_length_app (s t : string) :
  String.length (s +:+ t) = String.length s + String.length t.
Proof. induction s as [|c s IH]; [done|]. rewrite str_app_cons. simpl. by rewrite IH. Qed.

Lemma str_app_eq_nil (s t : string) : s +:+ t = "" → s = "" ∧ t = "".
Proof. destruct s; [done|]. by rewrite str_app_cons. Qed.

(** Two prefixes of the same length of one string are equal. *)
Lemma str_app_eq_length (a b x y : string) :
  a +:+ x = b +:+ y → String.length a = String.length b → a = b.
Proof.
  revert b. induction a as [|c a IH]; intros [|d b] Heq Hlen; try done.
  rewrite !str_app_cons in Heq. simplify_eq/=. f_equal. eauto.
Qed.

Lemma startswith_app (p r : string) : Py.startswith p (p +:+ r) = true.
Proof.
  induction p as [|a p IH]; [done|].
  rewrite str_app_cons. simpl. by rewrite decide_True.
Qed.

Lemma startswith_drop (p s : string) :
  Py.startswith p s = true → s = p +:+ Py.drop (String.length p) s.
Proof.
  revert s. induction p as [|a p IH]; intros s H.
  - by destruct s.
  - destruct s as [|b s]; [done|]. simpl in H.
    destruct (decide (a = b)) as [->|]; [|done].
    rewrite str_app_cons. simpl. f_equal. by apply IH.
Qed.

Lemma startswith_spec (p s : string) :
  Py.startswith p s = true ↔ ∃ r, s = p +:+ r.
Proof.
  split.
  - intros H. eexists. by apply startswith_drop.
  - intros [r ->]. apply startswith_app.
Qed.

Lemma str_length_drop (n : nat) (s : string) :
  String.length (Py.drop n s) = String.length s - n.
Proof.
  revert s. induction n as [|n IH]; intros [|c s]; simpl; try done.
Qed.

Lemma drop_app_length (p r : string) : Py.drop (String.length p) (p +:+ r) = r.
Proof.
  induction p as [|a p IH]; [by destruct r|]. by rewrite str_app_cons.
Qed.

Lemma str_take_drop (n : nat) (s : string) : Py.take n s +:+ Py.drop n s = s.
Proof.
  revert s. induction n as [|n IH]; intros [|c s]; try done.
  simpl. by rewrite str_app_cons, IH.
Qed.

Lemma str_length_take (n : nat) (s : string) :
  String.length (Py.take n s) = n `min` String.length s.
Proof.
  revert s. induction n as [|n IH]; intros [|c s]; simpl; try done.
  by rewrite IH.
Qed.

(** The scan that [replace] and [split] perform, as an induction
    principle: a string is empty, starts with an occurrence of [old], or
    starts with a character at which no occurrence begins. *)
Lemma scan_ind (old : string) (P : string → Prop) :
  old ≠ "" →
  P "" →
  (∀ r, P r → P (old +:+ r)) →
  (∀ c s, Py.startswith old (String c s) = false → P s → P (String c s)) →
  ∀ s, P s.
Proof.
  intros Hold Hnil Hocc Hchar s.
  remember (String.length s) as n eqn:Hn. revert s Hn.
  induction n as [n IH] using lt_wf_ind. intros s ->.
  destruct s as [|c s]; [done|].
  destruct (Py.startswith old (String c s)) eqn:Hsw.
  - rewrite (startswith_drop _ _ Hsw). apply Hocc.
    eapply IH; [|done]. rewrite str_length_drop.
    destruct old; [done|]. simpl. lia.
  - apply Hchar; [done|]. eapply IH; [|done]. simpl. lia.
Qed.

Lemma replace_from_skip (old new : string) (k : nat) (s : string) :
  Py.replace_from old new k s = Py.replace_from old new 0 (Py.drop k s).
Proof.
  revert k. induction s as [|c s IH]; intros [|k]; try done.
  simpl. apply IH.
Qed.

Lemma split_from_skip (old : string) (k : nat) (s : string) :
  Py.split_from old k s = Py.split_from old 0 (Py.drop k s).
Proof.
  revert k. induction s as [|c s IH]; intros [|k]; try done.
  simpl. apply IH.
Qed.

Lemma replace_from_occ (old new r : string) :
  old ≠ "" →
  Py.replace_from old new 0 (old +:+ r) = new +:+ Py.replace_from old new 0 r.
Proof.
  intros Hold. destruct old as [|a old]; [done|].
  rewrite str_app_cons. cbn [Py.replace_from].
  rewrite <-str_app_cons, startswith_app. f_equal.
  rewrite replace_from_skip. f_equal.
  cbn [String.length]. rewrite Nat.sub_1_r. cbn [Nat.pred].
  apply drop_app_length.
Qed.

Lemma replace_from_char (old new : string) (c : ascii) (s : string) :
  Py.startswith old (String c s) = false →
  Py.replace_from old new 0 (String c s) = String c (Py.replace_from old new 0 s).
Proof. intros H. cbn [Py.replace_from]. by rewrite H. Qed.

Lemma split_from_occ (old r : string) :
  old ≠ "" →
  Py.split_from old 0 (old +:+ r) = "" :: Py.split_from old 0 r.
Proof.
  intros Hold. destruct old as [|a old]; [done|].
  rewrite str_app_cons. cbn [Py.split_from].
  rewrite <-str_app_cons, startswith_app. f_equal.
  rewrite split_from_skip. f_equal.
  cbn [String.length]. rewrite Nat.sub_1_r. cbn [Nat.pred].
  apply drop_app_length.
Qed.

Lemma split_from_char (old : string) (c : ascii) (s : string) :
  Py.startswith old (String c s) = false →
  Py.split_from old 0 (String c s) =
    match Py.split_from old 0 s with
    | p :: ps => String c p :: ps
    | [] => [String c ""]
    end.
Proof. intros H. cbn [Py.split_from]. by rewrite H. Qed.

Lemma split_from_nonempty (old : string) (k : nat) (s : string) :
  Py.split_from old k s ≠ [].
Proof.
  revert k. induction s as [|c s IH]; intros k; [done|].
  simpl. destruct k; [|apply IH].
  destruct (Py.startswith _ _); [done|].
  by destruct (Py.split_from old 0 s).
Qed.

Lemma join_cons (sep p : string) (ps : list string) :
  ps ≠ [] → Py.join sep (p :: ps) = p +:+ sep +:+ Py.join sep ps.
Proof. by destruct ps. Qed.

Lemma join_cons_char (sep : string) (c : ascii) (p : string) (ps : list string) :
  Py.join sep (String c p :: ps) = String c (Py.join sep (p :: ps)).
Proof. by destruct ps. Qed.

End StringFacts.

(** ** [replace] through [split] and [join] *)

Section ReplaceFacts.

Variables old new : string.
Hypothesis old_nonempty : old ≠ "".

Lemma scan_induction (P : string → Prop) :
  P "" →
  (∀ r, P r → P (old +:+ r)) →
  (∀ c s, Py.startswith old (String c s) = false → P s → P (String c s)) →
  ∀ s, P s.
Proof using old_nonempty. by apply scan_ind. Qed.

(** [s.replace(old, new) == new.join(s.split(old))] *)
Lemma replace_from_join (s : string) :
  Py.replace_from old new 0 s = Py.join new (Py.split_from old 0 s).
Proof using old_nonempty.
  induction s as [|r IH|c s Hsw IH] using scan_induction; [done| |].
  - rewrite replace_from_occ, split_from_occ, IH by done.
    by rewrite join_cons by apply split_from_nonempty.
  - rewrite replace_from_char, split_from_char, IH by done.
    pose proof (split_from_nonempty old 0 s).
    destruct (Py.split_from old 0 s) as [|p ps]; [done|].
    by rewrite join_cons_char.
Qed.

(** [old.join(s.split(old)) == s] *)
Lemma join_split_from (s : string) :
  Py.join old (Py.split_from old 0 s) = s.
Proof using old_nonempty.
  induction s as [|r IH|c s Hsw IH] using scan_induction; [done| |].
  - rewrite split_from_occ by done.
    rewrite join_cons by apply split_from_nonempty. by rewrite IH.
  - rewrite split_from_char by done.
    pose proof (split_from_nonempty old 0 s).
    destruct (Py.split_from old 0 s) as [|p ps]; [done|].
    by rewrite join_cons_char, IH.
Qed.

(** [old] occurs in [s] exactly when the split has more than one piece. *)
Lemma contains_split_from (s : string) :
  Py.contains old s = bool_decide (2 ≤ length (Py.split_from old 0 s)).
Proof using old_nonempty.
  induction s as [|r IH|c s Hsw IH] using scan_induction.
  - by destruct old.
  - rewrite split_from_occ by done.
    pose proof (split_from_nonempty old 0 r).
    destruct (Py.split_from old 0 r) as [|p ps]; [done|].
    assert (Py.contains old (old +:+ r) = true) as ->.
    { destruct (old +:+ r) eqn:E; simpl; rewrite <-?E, startswith_app; done. }
    symmetry. apply bool_decide_eq_true. simpl. lia.
  - rewrite split_from_char by done. cbn [Py.contains]. rewrite Hsw, IH. simpl.
    pose proof (split_from_nonempty old 0 s).
    by destruct (Py.split_from old 0 s).
Qed.

Lemma head_split_from_prefix (s p : string) (ps : list string) :
  Py.split_from old 0 s = p :: ps → ∃ t, s = p +:+ t.
Proof using old_nonempty.
  intros H. rewrite <-(join_split_from s), H.
  destruct ps as [|q qs]; [exists ""; by rewrite str_app_nil_r|].
  eexists. by apply join_cons.
Qed.

(** No piece of the split holds an occurrence of [old]: every occurrence
    met by the scan is a separator. *)
Lemma split_from_pieces (s piece : string) :
  piece ∈ Py.split_from old 0 s → Py.contains old piece = false.
Proof using old_nonempty.
  revert piece.
  induction s as [|r IH|c s Hsw IH] using scan_induction;
    intros piece Hin.
  - apply list_elem_of_singleton in Hin as ->. by destruct old.
  - rewrite split_from_occ in Hin by done.
    apply elem_of_cons in Hin as [->|Hin]; [by destruct old|by apply IH].
  - rewrite split_from_char in Hin by done.
    pose proof (split_from_nonempty old 0 s).
    destruct (Py.split_from old 0 s) as [|p ps] eqn:E; [done|].
    apply elem_of_cons in Hin as [->|Hin].
    + cbn [Py.contains]. rewrite (IH p) by left. rewrite orb_false_r.
      destruct (Py.startswith old (String c p)) eqn:Hp; [|done].
      apply head_split_from_prefix in E as [t ->].
      apply startswith_spec in Hp as [u Hu].
      rewrite <-Hsw. symmetry. apply startswith_spec. exists (u +:+ t).
      by rewrite <-str_app_assoc, <-Hu.
    + apply IH. by right.
Qed.

Lemma replace_from_not_found (s : string) :
  Py.contains old s = false → Py.replace_from old new 0 s = s.
Proof using old_nonempty.
  intros H. rewrite contains_split_from in H. apply bool_decide_eq_false in H.
  rewrite replace_from_join. rewrite <-(join_split_from s) at 2.
  pose proof (split_from_nonempty old 0 s).
  destruct (Py.split_from old 0 s) as [|p [|q qs]]; simpl in *; [done..|lia].
Qed.

Lemma replace_from_eq_nil (s : string) :
  new ≠ "" → Py.replace_from old new 0 s = "" → s = "".
Proof.
  intros Hnew H. destruct s as [|c s]; [done|]. cbn [Py.replace_from] in H.
  destruct (Py.startswith old (String c s)); [|done].
  by apply str_app_eq_nil in H as [? _].
Qed.

End ReplaceFacts.

Lemma length_join (sep : string) (l : list string) :
  String.length (Py.join sep l)
  = sum_list (String.length <$> l) + (length l - 1) * String.length sep.
Proof.
  induction l as [|p [|q qs] IH]; [done|simpl; lia|].
  rewrite join_cons by done. rewrite !str_length_app, IH. simpl. lia.
Qed.

(** Joining at least two pieces with two separators gives the same string
    only if the separators are equal. *)
Lemma join_inj_sep (a b : string) (l : list string) :
  2 ≤ length l → Py.join a l = Py.join b l → a = b.
Proof.
  intros Hlen Heq.
  assert (String.length a = String.length b) as Hab.
  { apply (f_equal String.length) in Heq. rewrite !length_join in Heq. nia. }
  destruct l as [|p [|q qs]]; simpl in Hlen; [lia..|].
  rewrite !join_cons in Heq by done.
  apply (inj (String.app p)) in Heq. by eapply str_app_eq_length.
Qed.

(** Replacing a string by itself changes nothing. *)
Lemma replace_same (s old : string) : Py.replace s old old = s.
Proof.
  destruct (decide (old = "")) as [->|Hold].
  - simpl. induction s as [|c s IH]; [done|]. simpl. by rewrite IH.
  - unfold Py.replace. destruct old; [done|].
    rewrite replace_from_join by done. by apply join_split_from.
Qed.

(** Replacing an occurring pattern by a different string changes the text. *)
Lemma replace_changes (s old new : string) :
  old ≠ "" → Py.contains old s = true → old ≠ new → Py.replace s old new ≠ s.
Proof.
  intros Hold Hin Hne Heq. apply Hne. symmetry.
  rewrite contains_split_from in Hin by done. apply bool_decide_eq_true in Hin.
  assert (Py.replace s old new = Py.replace_from old new 0 s) as E
    by (by destruct old).
  rewrite E, replace_from_join in Heq by done.
  rewrite <-(join_split_from old Hold s) in Heq at 2.
  by eapply join_inj_sep.
Qed.

Lemma replace_not_found (s old new : string) :
  old ≠ "" → Py.contains old s = false → Py.replace s old new = s.
Proof.
  intros Hold H. destruct old; [done|]. by apply replace_from_not_found.
Qed.

Lemma replace_eq_nil (s old new : string) :
  old ≠ "" → new ≠ "" → Py.replace s old new = "" → s = "".
Proof.
  intros Hold Hnew. destruct old; [done|]. by apply replace_from_eq_nil.
Qed.

(** The replacement through the pieces of the text: what lies between the
    occurrences is kept, each occurrence becomes [new], and no occurrence is
    left inside a piece. *)
Lemma replace_spec (s old new : string) :
  old ≠ "" →
  let pieces := Py.split_from old 0 s in
  Py.join old pieces = s
  ∧ Py.replace s old new = Py.join new pieces
  ∧ ∀ piece, piece ∈ pieces → Py.contains old piece = false.
Proof.
  intros Hold pieces. split_and!.
  - by apply join_split_from.
  - destruct old; [done|]. by apply replace_from_join.
  - intros piece. by apply split_from_pieces.
Qed.

(** * Facts about paths and the filesystem *)

Lemma resolve_empty (cwd : abs_path) : resolve cwd "" = cwd.
Proof. unfold resolve. simpl. apply rev_involutive. Qed.

Lemma is_relative_to_refl (p : abs_path) : is_relative_to p p = true.
Proof. by apply bool_decide_eq_true. Qed.

(** A path that resolves outside the working directory is not the empty path. *)
Lemma outside_nonempty (cwd : abs_path) (path : string) :
  is_relative_to (resolve cwd path) cwd = false → path ≠ "".
Proof. intros H ->. by rewrite resolve_empty, is_relative_to_refl in H. Qed.

Lemma node_at_lookup (σ : fs) (p : abs_path) :
  p ≠ [] → node_at σ p = σ !! p.
Proof. by destruct p. Qed.

Lemma node_at_file_nonroot (σ : fs) (p : abs_path) (c : string) :
  node_at σ p = Some (File c) → p ≠ [].
Proof. by destruct p. Qed.

(** The empty path names the working directory, never a file. *)
Lemma file_path_nonempty (cwd : abs_path) (σ : fs) (path c : string) :
  is_dir σ cwd = true → node_at σ (resolve cwd path) = Some (File c) → path ≠ "".
Proof.
  intros Hcwd Hfile ->. rewrite resolve_empty in Hfile.
  unfold is_dir in Hcwd. by rewrite Hfile in Hcwd.
Qed.

Lemma missing_path_nonempty (cwd : abs_path) (σ : fs) (path : string) :
  is_dir σ cwd = true → exists_ σ (resolve cwd path) = false → path ≠ "".
Proof.
  intros Hcwd Hmiss ->. rewrite resolve_empty in Hmiss.
  unfold is_dir in Hcwd. unfold exists_ in Hmiss.
  by destruct (node_at σ cwd).
Qed.

(** * Facts about the unescaping of [edit_file] *)

Lemma unescape_eq_nil (s : string) : unescape s = "" → s = "".
Proof.
  unfold unescape. intros H.
  apply replace_eq_nil in H; [|done..].
  apply replace_eq_nil in H; [|done..].
  by apply replace_eq_nil in H.
Qed.

Lemma contains_app_l (a b s : string) :
  Py.contains (a +:+ b) s = true → Py.contains a s = true.
Proof.
  induction s as [|c s IH]; simpl; intros H.
  - apply orb_true_iff in H as [H|H]; [|done].
    apply startswith_spec in H as [r Hr]. rewrite str_app_assoc in Hr.
    apply orb_true_iff. left. apply startswith_spec. eauto.
  - apply orb_true_iff in H as [H|H]; apply orb_true_iff.
    + left. apply startswith_spec in H as [r Hr]. rewrite str_app_assoc in Hr.
      apply startswith_spec. eauto.
    + right. auto.
Qed.

(** Strings without a backslash are left as they are. *)
Lemma unescape_id (s : string) :
  Py.contains BACKSLASH s = false → unescape s = s.
Proof.
  intros H. unfold unescape.
  assert (∀ t, Py.contains (BACKSLASH +:+ t) s = false) as Hno.
  { intros t. destruct (Py.contains (BACKSLASH +:+ t) s) eqn:E; [|done].
    apply contains_app_l in E. congruence. }
  rewrite (replace_not_found s) by (done || apply Hno).
  rewrite (replace_not_found s) by (done || apply Hno).
  rewrite (replace_not_found s) by (done || apply Hno).
  done.
Qed.

(** * The branches of [edit_file] *)

Section EditFile.

Variable cwd : abs_path.

(** What [edit_file] does on an existing file of the working directory. *)
Lemma edit_file_existing (σ : fs) (path old_str new_str c : string) :
  old_str ≠ new_str →
  path ≠ "" →
  is_relative_to (resolve cwd path) cwd = true →
  node_at σ (resolve cwd path) = Some (File c) →
  edit_file cwd path old_str new_str σ =
    let o := unescape old_str in
    let n := unescape new_str in
    if negb (bool_decide (o = "")) && negb (Py.contains o c)
    then (pattern_not_found path old_str c, σ)
    else if negb (bool_decide (o = "")) && bool_decide (Py.replace c o n = c)
    then (no_change_warning path old_str new_str, σ)
    else ("OK", <[resolve cwd path := File (Py.replace c o n)]> σ).
Proof.
  intros Hne Hpath Hrel Hnode.
  unfold edit_file. rewrite !decide_False by done.
  unfold try_except, bind, get_fs, exists_, is_file, read_text. rewrite Hrel. simpl.
  rewrite Hnode. simpl. rewrite Hnode.
  destruct (negb (bool_decide (unescape old_str = "")) &&
            negb (Py.contains (unescape old_str) c)).
  - done.
  - destruct (negb (bool_decide (unescape old_str = "")) &&
              bool_decide (Py.replace c (unescape old_str) (unescape new_str) = c)).
    + done.
    + unfold write_text, ret. by rewrite Hnode.
Qed.

(** Reading a regular file of the working directory. *)
Lemma read_file_existing (σ : fs) (path c : string) :
  is_relative_to (resolve cwd path) cwd = true →
  node_at σ (resolve cwd path) = Some (File c) →
  read_file cwd path σ =
    (if max_len <? String.length c then Py.take max_len c +:+ file_truncated else c, σ).
Proof.
  intros Hrel Hnode.
  unfold read_file, try_except, bind, get_fs, is_file, read_text, ret.
  rewrite Hrel. cbn [negb]. rewrite Hnode. cbn [negb]. rewrite Hnode.
  by destruct (max_len <? String.length c).
Qed.

End EditFile.

(** * The tools on paths outside the working directory *)

(** C6.  When [old_str] and [new_str] are equal, [edit_file] answers with the
    no-op error whatever the path and the filesystem are: the answer does not
    depend on the filesystem, which is returned as it was. *)
Theorem edit_file_no_op (cwd : abs_path) (path s : string) (σ : fs) :
  edit_file cwd path s s σ = (no_op_edit, σ).
Proof. unfold edit_file. by rewrite decide_True. Qed.

(** C1, as the code has it.  On a path that resolves outside the working
    directory, [read_file], [list_files], the helper [create_new_file] and
    [edit_file] with different [old_str] and [new_str] answer with their
    access-denied error; [edit_file] with equal strings answers with the
    no-op error, its first check.  In every case the filesystem is returned
    unchanged and nothing of it appears in the answer. *)
Theorem outside_access_denied (cwd : abs_path) (σ : fs) (path : string) :
  is_relative_to (resolve cwd path) cwd = false →
  read_file cwd path σ = (access_denied cwd "read", σ)
  ∧ list_files cwd path σ = (access_denied cwd "list", σ)
  ∧ (∀ content, create_new_file cwd path content σ = (access_denied cwd "create", σ))
  ∧ (∀ old_str new_str, old_str ≠ new_str →
       edit_file cwd path old_str new_str σ = (access_denied cwd "edit", σ))
  ∧ (∀ s, edit_file cwd path s s σ = (no_op_edit, σ)).
Proof.
  intros Hout. split_and!.
  - unfold read_file, try_except. by rewrite Hout.
  - unfold list_files, try_except. by rewrite Hout.
  - intros content. unfold create_new_file, try_except. by rewrite Hout.
  - intros old_str new_str Hne. unfold edit_file.
    rewrite decide_False by done.
    rewrite decide_False by (by eapply outside_nonempty).
    unfold try_except. by rewrite Hout.
  - intros s. unfold edit_file. by rewrite decide_True.
Qed.

Lemma outside_access_denied_witness :
  is_relative_to (resolve Examples.cwd "../../../etc/passwd") Examples.cwd = false
  ∧ (read_file Examples.cwd "../../../etc/passwd" Examples.disk
       = (access_denied Examples.cwd "read", Examples.disk)
     ∧ list_files Examples.cwd "../../../etc/passwd" Examples.disk
       = (access_denied Examples.cwd "list", Examples.disk)
     ∧ (∀ content, create_new_file Examples.cwd "../../../etc/passwd" content Examples.disk
          = (access_denied Examples.cwd "create", Examples.disk))
     ∧ (∀ old_str new_str, old_str ≠ new_str →
          edit_file Examples.cwd "../../../etc/passwd" old_str new_str Examples.disk
          = (access_denied Examples.cwd "edit", Examples.disk))
     ∧ (∀ s, edit_file Examples.cwd "../../../etc/passwd" s s Examples.disk
          = (no_op_edit, Examples.disk))).
Proof.
  split; [reflexivity|].
  apply (outside_access_denied Examples.cwd Examples.disk "../../../etc/passwd").
  reflexivity.
Defined.

(** C1 as stated fails: [/etc/passwd] lies outside the working directory, and
    [edit_file] on it with equal strings does not answer with an access-denied
    error. *)
Lemma outside_edit_not_access_denied :
  is_relative_to (resolve Examples.cwd "/etc/passwd") Examples.cwd = false
  ∧ (edit_file Examples.cwd "/etc/passwd" "x" "x" Examples.disk).1 = no_op_edit
  ∧ ∀ verb, (edit_file Examples.cwd "/etc/passwd" "x" "x" Examples.disk).1
            ≠ access_denied Examples.cwd verb.
Proof.
  split_and!; [reflexivity..|].
  intros verb. unfold edit_file. rewrite decide_True by done.
  unfold access_denied. simpl.
  unfold no_op_edit. rewrite !str_app_cons. discriminate.
Qed.

(** * Editing an existing file *)

(** Closed side conditions on the example workspace are settled by
    evaluation. *)
Ltac evaluate := first [ reflexivity | discriminate | vm_compute; reflexivity ].

(** [s.replace("", new)] puts [new] before every character and at the end:
    it joins the characters, with an empty piece before and after them. *)
Lemma interleave_join (new s : string) :
  Py.interleave new s = Py.join new ("" :: Py.chars s ++ [""]).
Proof.
  induction s as [|c s IH].
  - simpl. by rewrite str_app_nil_r.
  - cbn [Py.interleave Py.chars]. rewrite IH, <-app_comm_cons.
    rewrite !join_cons by (by destruct (Py.chars s)).
    by rewrite !str_app_nil_l, !str_app_cons, str_app_nil_l.
Qed.

(** C10, as the code has it.  The equality check compares the strings as
    they were passed: when [old_str] and [new_str] differ but are equal once
    unescaped, and the unescaped form occurs in an existing file of the
    working directory, the pattern is not empty, the replacement gives the
    content back unchanged, and the call returns the no-change warning and
    leaves the filesystem as it was. *)
Theorem edit_file_no_change_warning (cwd : abs_path) (σ : fs)
    (path old_str new_str c : string) :
  is_dir σ cwd = true →
  is_relative_to (resolve cwd path) cwd = true →
  node_at σ (resolve cwd path) = Some (File c) →
  old_str ≠ new_str →
  unescape old_str = unescape new_str →
  Py.contains (unescape old_str) c = true →
  unescape old_str ≠ ""
  ∧ Py.replace c (unescape old_str) (unescape new_str) = c
  ∧ edit_file cwd path old_str new_str σ
    = (no_change_warning path old_str new_str, σ).
Proof.
  intros Hcwd Hrel Hnode Hne Heq Hin.
  assert (unescape old_str ≠ "") as Hnonempty.
  { intros Hnil. apply Hne.
    rewrite (unescape_eq_nil old_str), (unescape_eq_nil new_str); congruence. }
  assert (Py.replace c (unescape old_str) (unescape new_str) = c) as Hsame
    by (rewrite <-Heq; apply replace_same).
  split_and!; [done..|].
  rewrite (edit_file_existing cwd σ path old_str new_str c)
    by eauto using file_path_nonempty.
  cbv zeta. rewrite Hin, Hsame.
  rewrite (bool_decide_eq_false_2 _ Hnonempty), (bool_decide_eq_true_2 (c = c)) by done.
  done.
Qed.

Lemma edit_file_no_change_warning_witness :
  is_dir Examples.disk_with_lines Examples.cwd = true
  ∧ is_relative_to (resolve Examples.cwd "lines.txt") Examples.cwd = true
  ∧ node_at Examples.disk_with_lines (resolve Examples.cwd "lines.txt")
    = Some (File ("one" +:+ LF +:+ "two"))
  ∧ Examples.escaped_newline ≠ LF
  ∧ unescape Examples.escaped_newline = unescape LF
  ∧ Py.contains (unescape Examples.escaped_newline) ("one" +:+ LF +:+ "two") = true
  ∧ (unescape Examples.escaped_newline ≠ ""
     ∧ Py.replace ("one" +:+ LF +:+ "two")
         (unescape Examples.escaped_newline) (unescape LF)
       = "one" +:+ LF +:+ "two"
     ∧ edit_file Examples.cwd "lines.txt" Examples.escaped_newline LF
         Examples.disk_with_lines
       = (no_change_warning "lines.txt" Examples.escaped_newline LF,
          Examples.disk_with_lines)).
Proof.
  do 6 (split; [evaluate|]).
  apply (edit_file_no_change_warning Examples.cwd Examples.disk_with_lines
           "lines.txt" Examples.escaped_newline LF ("one" +:+ LF +:+ "two"));
    evaluate.
Defined.

(** C10 as stated fails for an existing file outside the working directory:
    [/etc/passwd] holds a newline, the two strings differ and unescape to
    the newline, and [edit_file] returns the access-denied error, not the
    no-change warning. *)
Lemma outside_file_no_warning :
  node_at Examples.disk (resolve Examples.cwd "/etc/passwd")
  = Some (File ("root" +:+ LF +:+ "daemon"))
  ∧ Examples.escaped_newline ≠ LF
  ∧ unescape Examples.escaped_newline = unescape LF
  ∧ Py.contains (unescape Examples.escaped_newline) ("root" +:+ LF +:+ "daemon") = true
  ∧ (edit_file Examples.cwd "/etc/passwd" Examples.escaped_newline LF Examples.disk).1
    = access_denied Examples.cwd "edit"
  ∧ (edit_file Examples.cwd "/etc/passwd" Examples.escaped_newline LF Examples.disk).1
    ≠ no_change_warning "/etc/passwd" Examples.escaped_newline LF.
Proof. split_and!; evaluate. Qed.

(** C7, as the code has it.  On an existing file of the working directory
    whose content does not hold the unescaped non-empty [old_str], with
    [new_str] different from [old_str], [edit_file] returns the
    pattern-not-found error and leaves the filesystem as it was; when the
    stripped [old_str] is in the content, the error is the one that offers
    the stripped string. *)
Theorem edit_file_pattern_not_found (cwd : abs_path) (σ : fs)
    (path old_str new_str c : string) :
  is_dir σ cwd = true →
  is_relative_to (resolve cwd path) cwd = true →
  node_at σ (resolve cwd path) = Some (File c) →
  old_str ≠ "" →
  old_str ≠ new_str →
  Py.contains (unescape old_str) c = false →
  edit_file cwd path old_str new_str σ = (pattern_not_found path old_str c, σ)
  ∧ (Py.contains (Py.strip old_str) c = true →
     pattern_not_found path old_str c
     = "Error: 'old_str' ('" +:+ old_str
       +:+ "') not found exactly in file. Did you mean '"
       +:+ Py.strip old_str +:+ "' (ignoring leading/trailing whitespace)?").
Proof.
  intros Hcwd Hrel Hnode Hold Hne Hnotin. split.
  - rewrite (edit_file_existing cwd σ path old_str new_str c)
      by eauto using file_path_nonempty.
    cbv zeta. rewrite Hnotin.
    rewrite bool_decide_eq_false_2; [done|].
    intros Hnil. by apply unescape_eq_nil in Hnil.
  - intros Hstrip. unfold pattern_not_found. by rewrite Hstrip.
Qed.

Lemma edit_file_pattern_not_found_witness :
  is_dir Examples.disk Examples.cwd = true
  ∧ is_relative_to (resolve Examples.cwd "a.txt") Examples.cwd = true
  ∧ node_at Examples.disk (resolve Examples.cwd "a.txt") = Some (File "hello")
  ∧ " hello " ≠ ""
  ∧ " hello " ≠ "x"
  ∧ Py.contains (unescape " hello ") "hello" = false
  ∧ (edit_file Examples.cwd "a.txt" " hello " "x" Examples.disk
     = (pattern_not_found "a.txt" " hello " "hello", Examples.disk)
     ∧ (Py.contains (Py.strip " hello ") "hello" = true →
        pattern_not_found "a.txt" " hello " "hello"
        = "Error: 'old_str' ('" +:+ " hello "
          +:+ "') not found exactly in file. Did you mean '"
          +:+ Py.strip " hello " +:+ "' (ignoring leading/trailing whitespace)?")).
Proof.
  do 6 (split; [evaluate|]).
  apply (edit_file_pattern_not_found Examples.cwd Examples.disk "a.txt"
           " hello " "x" "hello");
    evaluate.
Defined.

(** C7 as stated fails.  [a.txt] exists and does not hold the non-empty
    pattern, and [edit_file] with [new_str] equal to [old_str] returns the
    no-op error, not the pattern-not-found error.  [/etc/passwd] exists
    outside the working directory and does not hold the pattern either, and
    the answer is the access-denied error. *)
Lemma equal_strings_not_pattern_not_found :
  node_at Examples.disk (resolve Examples.cwd "a.txt") = Some (File "hello")
  ∧ "zz" ≠ ""
  ∧ Py.contains (unescape "zz") "hello" = false
  ∧ (edit_file Examples.cwd "a.txt" "zz" "zz" Examples.disk).1 = no_op_edit
  ∧ (edit_file Examples.cwd "a.txt" "zz" "zz" Examples.disk).1
    ≠ pattern_not_found "a.txt" "zz" "hello"
  ∧ node_at Examples.disk (resolve Examples.cwd "/etc/passwd")
    = Some (File ("root" +:+ LF +:+ "daemon"))
  ∧ Py.contains (unescape "zz") ("root" +:+ LF +:+ "daemon") = false
  ∧ (edit_file Examples.cwd "/etc/passwd" "zz" "y" Examples.disk).1
    = access_denied Examples.cwd "edit"
  ∧ (edit_file Examples.cwd "/etc/passwd" "zz" "y" Examples.disk).1
    ≠ pattern_not_found "/etc/passwd" "zz" ("root" +:+ LF +:+ "daemon").
Proof. split_and!; evaluate. Qed.

(** A character is in a joined text only if it is in the separator or in a
    piece. *)
Lemma contains_char_app (a : ascii) (s t : string) :
  Py.contains (String a "") (s +:+ t)
  = Py.contains (String a "") s || Py.contains (String a "") t.
Proof.
  induction s as [|b s IH]; [done|].
  rewrite str_app_cons. cbn [Py.contains Py.startswith]. rewrite IH.
  by rewrite orb_assoc.
Qed.

Lemma contains_char_join (a : ascii) (sep : string) (ps : list string) :
  Py.contains (String a "") sep = false →
  Forall (λ piece, Py.contains (String a "") piece = false) ps →
  Py.contains (String a "") (Py.join sep ps) = false.
Proof.
  intros Hsep. induction 1 as [|piece ps Hpiece Hps IH]; [done|].
  destruct ps as [|piece' ps]; [done|].
  rewrite join_cons by done. rewrite !contains_char_app, Hpiece, Hsep.
  by rewrite IH.
Qed.

Lemma contains_char_pieces (a : ascii) (sep : string) (ps : list string) :
  Py.contains (String a "") (Py.join sep ps) = false →
  Forall (λ piece, Py.contains (String a "") piece = false) ps.
Proof.
  induction ps as [|piece ps IH]; [done|].
  destruct ps as [|piece' ps]; [by repeat constructor|].
  rewrite join_cons by done. rewrite !contains_char_app.
  intros [Hpiece [_ Hrest]%orb_false_elim]%orb_false_elim.
  constructor; [done|]. by apply IH.
Qed.

(** C4, as the code has it.  On an existing file of the working directory
    whose content [c] holds no carriage return, when the unescaped [old_str]
    is not empty and occurs in [c] and the unescaped [new_str] holds no
    carriage return, [edit_file] leaves in the file the content in which
    every occurrence of the unescaped [old_str] met by the scan is the
    unescaped [new_str]: [c] is the pieces of the scan joined by the
    pattern, the new content is the same pieces joined by the replacement,
    and no piece holds the pattern.  The call returns [OK] when the two
    unescaped strings differ.  The new content holds no carriage return
    either, and a following [read_file] returns it, cut to its first 10000
    characters and the truncation marker when it is longer.  (Python reads
    a carriage return as a line feed: with one in the file or in the
    replacement, what is read differs from what is stored.) *)
Theorem edit_file_replaces_all (cwd : abs_path) (σ : fs)
    (path old_str new_str c : string) :
  is_dir σ cwd = true →
  is_relative_to (resolve cwd path) cwd = true →
  node_at σ (resolve cwd path) = Some (File c) →
  unescape old_str ≠ "" →
  Py.contains (unescape old_str) c = true →
  Py.contains CR c = false →
  Py.contains CR (unescape new_str) = false →
  let o := unescape old_str in
  let n := unescape new_str in
  let pieces := Py.split_from o 0 c in
  let c' := Py.join n pieces in
  let σ' := <[resolve cwd path := File c']> σ in
  (edit_file cwd path old_str new_str σ).2 = σ'
  ∧ (o ≠ n → (edit_file cwd path old_str new_str σ).1 = "OK")
  ∧ Py.join o pieces = c
  ∧ Py.replace c o n = c'
  ∧ (∀ piece, piece ∈ pieces → Py.contains o piece = false)
  ∧ Py.contains CR c' = false
  ∧ read_file cwd path σ'
    = (if max_len <? String.length c' then Py.take max_len c' +:+ file_truncated else c',
       σ').
Proof.
  intros Hcwd Hrel Hnode Hnonempty Hin Hread Hnew. cbv zeta.
  destruct (replace_spec c (unescape old_str) (unescape new_str) Hnonempty)
    as (Hjoin & Hreplace & Hpieces).
  cbv zeta in Hjoin, Hreplace, Hpieces.
  assert (resolve cwd path ≠ []) as Hp by (by eapply node_at_file_nonroot).
  assert (σ !! resolve cwd path = Some (File c)) as Hlookup
    by (by rewrite <-node_at_lookup).
  split_and!; [| |done..| |].
  - rewrite <-Hreplace. destruct (decide (old_str = new_str)) as [<-|Hne].
    + unfold edit_file. rewrite decide_True by done. simpl.
      by rewrite replace_same, insert_id.
    + rewrite (edit_file_existing cwd σ path old_str new_str c)
        by eauto using file_path_nonempty.
      cbv zeta. rewrite Hin.
      rewrite (bool_decide_eq_false_2 (unescape old_str = "")) by done. simpl.
      case_bool_decide as Hsame; [|done]. simpl.
      by rewrite Hsame, insert_id.
  - intros Hdiff.
    rewrite (edit_file_existing cwd σ path old_str new_str c);
      [|congruence|by eapply file_path_nonempty|done..].
    cbv zeta. rewrite Hin.
    rewrite (bool_decide_eq_false_2 (unescape old_str = "")) by done.
    rewrite bool_decide_eq_false_2; [done|].
    by apply replace_changes.
  - apply contains_char_join; [done|].
    apply (contains_char_pieces _ (unescape old_str)). by rewrite Hjoin.
  - apply read_file_existing; [done|].
    rewrite node_at_lookup by done. apply lookup_insert_eq.
Qed.

Lemma edit_file_replaces_all_witness :
  is_dir Examples.disk Examples.cwd = true
  ∧ is_relative_to (resolve Examples.cwd "a.txt") Examples.cwd = true
  ∧ node_at Examples.disk (resolve Examples.cwd "a.txt") = Some (File "hello")
  ∧ unescape "l" ≠ ""
  ∧ Py.contains (unescape "l") "hello" = true
  ∧ Py.contains CR "hello" = false
  ∧ Py.contains CR (unescape "LL") = false
  ∧ (let o := unescape "l" in
     let n := unescape "LL" in
     let pieces := Py.split_from o 0 "hello" in
     let c' := Py.join n pieces in
     let σ' := <[resolve Examples.cwd "a.txt" := File c']> Examples.disk in
     (edit_file Examples.cwd "a.txt" "l" "LL" Examples.disk).2 = σ'
     ∧ (o ≠ n → (edit_file Examples.cwd "a.txt" "l" "LL" Examples.disk).1 = "OK")
     ∧ Py.join o pieces = "hello"
     ∧ Py.replace "hello" o n = c'
     ∧ (∀ piece, piece ∈ pieces → Py.contains o piece = false)
     ∧ Py.contains CR c' = false
     ∧ read_file Examples.cwd "a.txt" σ'
       = (if max_len <? String.length c'
          then Py.take max_len c' +:+ file_truncated else c', σ')).
Proof.
  do 7 (split; [evaluate|]).
  apply (edit_file_replaces_all Examples.cwd Examples.disk "a.txt" "l" "LL" "hello");
    evaluate.
Defined.

(** Two occurrences are replaced in [hello], and nothing else changes. *)
Example edit_hello_twice :
  (edit_file Examples.cwd "a.txt" "l" "LL" Examples.disk).1 = "OK"
  ∧ (read_file Examples.cwd "a.txt"
       (edit_file Examples.cwd "a.txt" "l" "LL" Examples.disk).2).1
    = "heLLLLo".
Proof. split; vm_compute; reflexivity. Qed.

(** The example of the specification: [hello] becomes [hello world]. *)
Example edit_then_read_hello_world :
  (edit_file Examples.cwd "a.txt" "hello" "hello world" Examples.disk).1 = "OK"
  ∧ (read_file Examples.cwd "a.txt"
       (edit_file Examples.cwd "a.txt" "hello" "hello world" Examples.disk).2).1
    = "hello world".
Proof. split; vm_compute; reflexivity. Qed.

(** C4 as stated fails.  [notes.txt] holds a backslash followed by [n]; that
    two-character [old_str] is found in the content, yet [edit_file] looks
    for the newline it unescapes to, changes nothing, and the following
    [read_file] does not return the content with [old_str] replaced.
    [long.txt] holds 10001 times the letter [a]; the edit replaces them all,
    and the following [read_file] returns 10000 of the new letters and the
    truncation marker, not the new content.  [/etc/passwd] lies outside the
    working directory and is left as it was. *)
Lemma escaped_pattern_not_replaced :
  node_at Examples.disk_with_notes (resolve Examples.cwd "notes.txt")
  = Some (File ("a" +:+ Examples.escaped_newline +:+ "b"))
  ∧ Examples.escaped_newline ≠ ""
  ∧ Py.contains Examples.escaped_newline ("a" +:+ Examples.escaped_newline +:+ "b") = true
  ∧ Py.replace ("a" +:+ Examples.escaped_newline +:+ "b") Examples.escaped_newline "X"
    = "aXb"
  ∧ (edit_file Examples.cwd "notes.txt" Examples.escaped_newline "X"
       Examples.disk_with_notes).2 = Examples.disk_with_notes
  ∧ (read_file Examples.cwd "notes.txt"
       (edit_file Examples.cwd "notes.txt" Examples.escaped_newline "X"
          Examples.disk_with_notes).2).1
    ≠ "aXb"
  ∧ node_at Examples.disk_with_long (resolve Examples.cwd "long.txt")
    = Some (File (Examples.copies (S max_len) "a"))
  ∧ (edit_file Examples.cwd "long.txt" "a" "b" Examples.disk_with_long).1 = "OK"
  ∧ (read_file Examples.cwd "long.txt"
       (edit_file Examples.cwd "long.txt" "a" "b" Examples.disk_with_long).2).1
    = Examples.copies max_len "b" +:+ file_truncated
  ∧ Examples.copies max_len "b" +:+ file_truncated
    ≠ Py.replace (Examples.copies (S max_len) "a") "a" "b"
  ∧ Py.contains "o" ("root" +:+ LF +:+ "daemon") = true
  ∧ edit_file Examples.cwd "/etc/passwd" "o" "0" Examples.disk
    = (access_denied Examples.cwd "edit", Examples.disk).
Proof. split_and!; evaluate. Qed.

(** C9, as the code has it.  With an empty [old_str] and a non-empty
    [new_str] on an existing file of the working directory, both guards are
    passed over, the unescaped [new_str] is put before every character of the
    content and once at its end, the result is written and [OK] is
    returned. *)
Theorem edit_file_empty_pattern (cwd : abs_path) (σ : fs) (path new_str c : string) :
  is_dir σ cwd = true →
  is_relative_to (resolve cwd path) cwd = true →
  node_at σ (resolve cwd path) = Some (File c) →
  new_str ≠ "" →
  let n := unescape new_str in
  edit_file cwd path "" new_str σ
  = ("OK", <[resolve cwd path := File (Py.join n ("" :: Py.chars c ++ [""]))]> σ).
Proof.
  intros Hcwd Hrel Hnode Hnew. cbv zeta.
  rewrite (edit_file_existing cwd σ path "" new_str c);
    [|congruence|by eapply file_path_nonempty|done..].
  cbv zeta. change (unescape "") with "".
  rewrite (bool_decide_eq_true_2 ("" = "")) by done. simpl.
  by rewrite interleave_join.
Qed.

Lemma edit_file_empty_pattern_witness :
  is_dir Examples.disk Examples.cwd = true
  ∧ is_relative_to (resolve Examples.cwd "a.txt") Examples.cwd = true
  ∧ node_at Examples.disk (resolve Examples.cwd "a.txt") = Some (File "hello")
  ∧ "-" ≠ ""
  ∧ edit_file Examples.cwd "a.txt" "" "-" Examples.disk
    = ("OK", <[resolve Examples.cwd "a.txt" :=
                 File (Py.join (unescape "-") ("" :: Py.chars "hello" ++ [""]))]>
               Examples.disk).
Proof.
  do 4 (split; [evaluate|]).
  apply (edit_file_empty_pattern Examples.cwd Examples.disk "a.txt" "-" "hello");
    evaluate.
Defined.

(** C9 as stated fails.  With [new_str] a backslash followed by [n], what is
    put between the characters of [hello] is a newline, not [new_str].  On
    [/etc/passwd], outside the working directory, nothing is inserted. *)
Lemma escaped_new_str_not_inserted :
  node_at Examples.disk (resolve Examples.cwd "a.txt") = Some (File "hello")
  ∧ Examples.escaped_newline ≠ ""
  ∧ (edit_file Examples.cwd "a.txt" "" Examples.escaped_newline Examples.disk).1 = "OK"
  ∧ node_at (edit_file Examples.cwd "a.txt" "" Examples.escaped_newline Examples.disk).2
      (resolve Examples.cwd "a.txt")
    = Some (File (Py.interleave LF "hello"))
  ∧ Py.interleave LF "hello" ≠ Py.interleave Examples.escaped_newline "hello"
  ∧ node_at Examples.disk (resolve Examples.cwd "/etc/passwd")
    = Some (File ("root" +:+ LF +:+ "daemon"))
  ∧ edit_file Examples.cwd "/etc/passwd" "" "-" Examples.disk
    = (access_denied Examples.cwd "edit", Examples.disk).
Proof. split_and!; evaluate. Qed.

(** * Creating a file *)

Lemma elem_of_ancestors_and_self (q d : abs_path) :
  q ∈ ancestors_and_self d ↔ q ≠ [] ∧ q `prefix_of` d.
Proof.
  unfold ancestors_and_self. rewrite list_elem_of_fmap. split.
  - intros (n & -> & Hn). apply elem_of_seq in Hn. split.
    + destruct d, n; simpl in *; try done; lia.
    + apply prefix_take.
  - intros (Hq & k & ->). exists (length q). split.
    + by rewrite take_app_length.
    + apply elem_of_seq. rewrite length_app.
      destruct q; [done|]. simpl. lia.
Qed.

(** After the directories of [l] were made, a path holds what it held before,
    or a directory when it was missing and is in [l]. *)
Lemma fold_mkdir_one_lookup (l : list abs_path) (σ : fs) (q : abs_path) :
  fold_left mkdir_one l σ !! q =
    match σ !! q with
    | Some n => Some n
    | None => if bool_decide (q ∈ l) then Some Dir else None
    end.
Proof.
  revert σ. induction l as [|a l IH]; intros σ; simpl.
  - by destruct (σ !! q).
  - rewrite IH. unfold mkdir_one. destruct (decide (q = a)) as [->|Hne].
    + rewrite (bool_decide_eq_true_2 (a ∈ a :: l)) by left.
      destruct (σ !! a) eqn:E; rewrite ?E, ?lookup_insert_eq; done.
    + assert (bool_decide (q ∈ a :: l) = bool_decide (q ∈ l)) as ->.
      { apply bool_decide_ext. rewrite elem_of_cons. split; [by intros [?|?]|by right]. }
      destruct (σ !! a); [done|]. by rewrite lookup_insert_ne.
Qed.

Lemma parent_snoc (p : abs_path) : p ≠ [] → p = parent p ++ [List.last p ""].
Proof. apply app_removelast_last. Qed.

Lemma parent_prefix (p : abs_path) : parent p `prefix_of` p.
Proof.
  destruct (decide (p = [])) as [->|Hp]; [done|].
  exists [List.last p ""]. by apply parent_snoc.
Qed.

Lemma parent_length (p : abs_path) : p ≠ [] → length p = S (length (parent p)).
Proof.
  intros Hp. rewrite (parent_snoc p Hp) at 1. rewrite length_app. simpl. lia.
Qed.

Lemma prefix_of_parent_ne (p q : abs_path) :
  p ≠ [] → q `prefix_of` parent p → q ≠ p.
Proof.
  intros Hp Hq ->. apply prefix_length in Hq.
  rewrite (parent_length p Hp) in Hq. lia.
Qed.

Section CreateFile.

Variable cwd : abs_path.

Lemma create_new_file_missing (σ : fs) (path content : string) :
  is_relative_to (resolve cwd path) cwd = true →
  exists_ σ (resolve cwd path) = false →
  (∀ q, q `prefix_of` resolve cwd path → is_file σ q = false) →
  create_new_file cwd path content σ
  = ("Successfully created file " +:+ path, created cwd σ path content).
Proof.
  intros Hrel Hmiss Hdirs. set (p := resolve cwd path) in *.
  assert (p ≠ []) as Hp by (intros E; by rewrite E in Hmiss).
  assert (σ !! p = None) as Hnone.
  { unfold exists_ in Hmiss. rewrite node_at_lookup in Hmiss by done.
    by destruct (σ !! p). }
  unfold create_new_file, created, try_except, bind. fold p. rewrite Hrel. simpl.
  unfold mkdir_parents. rewrite (Hdirs (parent p)) by apply parent_prefix.
  rewrite bool_decide_eq_false_2; last first.
  { intros (q & Hq & Hfile)%Exists_exists.
    apply elem_of_ancestors_and_self in Hq as [_ Hq].
    rewrite Hdirs in Hfile; [done|]. etrans; [done|apply parent_prefix]. }
  unfold write_text.
  set (σ1 := fold_left mkdir_one (ancestors_and_self (parent p)) σ).
  assert (node_at σ1 p = None) as ->.
  { rewrite node_at_lookup by done. unfold σ1.
    rewrite fold_mkdir_one_lookup, Hnone, bool_decide_eq_false_2; [done|].
    intros [_ Hpre]%elem_of_ancestors_and_self.
    by eapply prefix_of_parent_ne. }
  assert (node_at σ1 (parent p) = Some Dir) as ->; [|done].
  destruct (decide (parent p = [])) as [->|Hd]; [done|].
  rewrite node_at_lookup by done. unfold σ1. rewrite fold_mkdir_one_lookup.
  pose proof (Hdirs (parent p) (parent_prefix p)) as Hnf.
  unfold is_file in Hnf. rewrite node_at_lookup in Hnf by done.
  destruct (σ !! parent p) as [[]|]; [done..|].
  rewrite bool_decide_eq_true_2; [done|].
  by apply elem_of_ancestors_and_self.
Qed.

(** What the created filesystem holds. *)
Lemma created_lookup (σ : fs) (path content : string) :
  exists_ σ (resolve cwd path) = false →
  (∀ q, q `prefix_of` resolve cwd path → is_file σ q = false) →
  node_at (created cwd σ path content) (resolve cwd path) = Some (File content)
  ∧ (∀ q, q `prefix_of` parent (resolve cwd path) →
       node_at (created cwd σ path content) q = Some Dir)
  ∧ (∀ q, ¬ q `prefix_of` resolve cwd path →
       created cwd σ path content !! q = σ !! q)
  ∧ (∀ q n, σ !! q = Some n → created cwd σ path content !! q = Some n).
Proof.
  intros Hmiss Hdirs. unfold created. set (p := resolve cwd path) in *.
  assert (p ≠ []) as Hp by (intros E; by rewrite E in Hmiss).
  assert (σ !! p = None) as Hnone.
  { unfold exists_ in Hmiss. rewrite node_at_lookup in Hmiss by done.
    by destruct (σ !! p). }
  split_and!.
  - rewrite node_at_lookup by done. apply lookup_insert_eq.
  - intros q Hq. destruct (decide (q = [])) as [->|Hq0]; [done|].
    rewrite node_at_lookup by done.
    rewrite lookup_insert_ne by (symmetry; by eapply prefix_of_parent_ne).
    rewrite fold_mkdir_one_lookup.
    assert (is_file σ q = false) as Hnf
      by (apply Hdirs; etrans; [done|apply parent_prefix]).
    unfold is_file in Hnf. rewrite node_at_lookup in Hnf by done.
    destruct (σ !! q) as [[]|]; [done..|].
    rewrite bool_decide_eq_true_2; [done|].
    by apply elem_of_ancestors_and_self.
  - intros q Hq.
    rewrite lookup_insert_ne by (intros <-; by apply Hq).
    rewrite fold_mkdir_one_lookup. destruct (σ !! q); [done|].
    rewrite bool_decide_eq_false_2; [done|].
    intros [_ Hpre]%elem_of_ancestors_and_self.
    apply Hq. etrans; [done|apply parent_prefix].
  - intros q n Hqn.
    rewrite lookup_insert_ne by (intros <-; congruence).
    by rewrite fold_mkdir_one_lookup, Hqn.
Qed.

End CreateFile.

(** C5, as the code has it.  Let [path] resolve inside the working directory
    to a place where nothing exists.  With an empty [old_str] and a non-empty
    [new_str], provided no regular file lies on the way to the place,
    [edit_file] creates the file with exactly [new_str] as its content, makes
    every missing directory above it, leaves every other path as it was, and
    returns the confirmation of [create_new_file].  With a non-empty
    [old_str] and a different [new_str] it returns the file-not-found error
    and leaves the filesystem as it was. *)
Theorem edit_file_missing_path (cwd : abs_path) (σ : fs) (path : string) :
  is_dir σ cwd = true →
  is_relative_to (resolve cwd path) cwd = true →
  exists_ σ (resolve cwd path) = false →
  (∀ new_str,
     new_str ≠ "" →
     (∀ q, q `prefix_of` resolve cwd path → is_file σ q = false) →
     edit_file cwd path "" new_str σ
     = ("Successfully created file " +:+ path, created cwd σ path new_str)
     ∧ node_at (created cwd σ path new_str) (resolve cwd path) = Some (File new_str)
     ∧ (∀ q, q `prefix_of` parent (resolve cwd path) →
          node_at (created cwd σ path new_str) q = Some Dir)
     ∧ (∀ q, ¬ q `prefix_of` resolve cwd path →
          created cwd σ path new_str !! q = σ !! q)
     ∧ (∀ q n, σ !! q = Some n → created cwd σ path new_str !! q = Some n))
  ∧ (∀ old_str new_str,
       old_str ≠ "" →
       old_str ≠ new_str →
       edit_file cwd path old_str new_str σ = (file_not_found path, σ)).
Proof.
  intros Hcwd Hrel Hmiss.
  pose proof (missing_path_nonempty cwd σ path Hcwd Hmiss) as Hpath.
  split.
  - intros new_str Hnew Hdirs. split; [|by apply created_lookup].
    unfold edit_file. rewrite !decide_False by done.
    unfold try_except, bind, get_fs. rewrite Hrel. simpl. rewrite Hmiss. simpl.
    by rewrite create_new_file_missing.
  - intros old_str new_str Hold Hne.
    unfold edit_file. rewrite !decide_False by done.
    unfold try_except, bind, get_fs. rewrite Hrel. simpl. by rewrite Hmiss.
Qed.

Lemma edit_file_missing_path_witness :
  is_dir Examples.disk Examples.cwd = true
  ∧ is_relative_to (resolve Examples.cwd "new/dir/b.txt") Examples.cwd = true
  ∧ exists_ Examples.disk (resolve Examples.cwd "new/dir/b.txt") = false
  ∧ ((∀ new_str,
        new_str ≠ "" →
        (∀ q, q `prefix_of` resolve Examples.cwd "new/dir/b.txt" →
           is_file Examples.disk q = false) →
        edit_file Examples.cwd "new/dir/b.txt" "" new_str Examples.disk
        = ("Successfully created file " +:+ "new/dir/b.txt",
           created Examples.cwd Examples.disk "new/dir/b.txt" new_str)
        ∧ node_at (created Examples.cwd Examples.disk "new/dir/b.txt" new_str)
            (resolve Examples.cwd "new/dir/b.txt") = Some (File new_str)
        ∧ (∀ q, q `prefix_of` parent (resolve Examples.cwd "new/dir/b.txt") →
             node_at (created Examples.cwd Examples.disk "new/dir/b.txt" new_str) q
             = Some Dir)
        ∧ (∀ q, ¬ q `prefix_of` resolve Examples.cwd "new/dir/b.txt" →
             created Examples.cwd Examples.disk "new/dir/b.txt" new_str !! q
             = Examples.disk !! q)
        ∧ (∀ q n, Examples.disk !! q = Some n →
             created Examples.cwd Examples.disk "new/dir/b.txt" new_str !! q = Some n))
     ∧ (∀ old_str new_str,
          old_str ≠ "" →
          old_str ≠ new_str →
          edit_file Examples.cwd "new/dir/b.txt" old_str new_str Examples.disk
          = (file_not_found "new/dir/b.txt", Examples.disk))).
Proof.
  do 3 (split; [evaluate|]).
  apply (edit_file_missing_path Examples.cwd Examples.disk "new/dir/b.txt");
    evaluate.
Defined.

(** The creation on the example workspace: the two directories and the file
    appear, and the file reads back. *)
Example create_nested_file :
  (edit_file Examples.cwd "new/dir/b.txt" "" "content" Examples.disk).1
  = "Successfully created file new/dir/b.txt"
  ∧ (read_file Examples.cwd "new/dir/b.txt"
       (edit_file Examples.cwd "new/dir/b.txt" "" "content" Examples.disk).2).1
    = "content"
  ∧ is_dir (edit_file Examples.cwd "new/dir/b.txt" "" "content" Examples.disk).2
      (resolve Examples.cwd "new/dir") = true
  ∧ (∀ q, q `prefix_of` resolve Examples.cwd "new/dir/b.txt" →
       is_file Examples.disk q = false).
Proof.
  split_and!; [evaluate..|].
  intros q [k Hk]. vm_compute in Hk.
  repeat (destruct q as [|? q]; [evaluate|]; simplify_eq/=).
Qed.

(** C5 as stated fails.  [new.txt] does not exist, and [edit_file] with an
    empty [old_str] and an empty [new_str] returns the no-op error and creates
    nothing; with a non-empty [old_str] and the same [new_str] it returns the
    no-op error too, not the file-not-found error.  [a.txt/b.txt] does not exist either, and because [a.txt] is a
    regular file the creation fails and the filesystem stays as it was.
    [/etc/new.txt] does not exist and lies outside the working directory:
    nothing is created there, and with a non-empty [old_str] the answer is
    the access-denied error, not the file-not-found error. *)
Lemma creation_refused :
  exists_ Examples.disk (resolve Examples.cwd "new.txt") = false
  ∧ edit_file Examples.cwd "new.txt" "" "" Examples.disk = (no_op_edit, Examples.disk)
  ∧ edit_file Examples.cwd "new.txt" "x" "x" Examples.disk = (no_op_edit, Examples.disk)
  ∧ no_op_edit ≠ file_not_found "new.txt"
  ∧ exists_ Examples.disk (resolve Examples.cwd "a.txt/b.txt") = false
  ∧ edit_file Examples.cwd "a.txt/b.txt" "" "x" Examples.disk
    = ("Error creating file 'a.txt/b.txt': [Errno 17] File exists: '/home/user/project/a.txt'",
       Examples.disk)
  ∧ exists_ Examples.disk (resolve Examples.cwd "/etc/new.txt") = false
  ∧ edit_file Examples.cwd "/etc/new.txt" "" "x" Examples.disk
    = (access_denied Examples.cwd "edit", Examples.disk)
  ∧ edit_file Examples.cwd "/etc/new.txt" "x" "y" Examples.disk
    = (access_denied Examples.cwd "edit", Examples.disk)
  ∧ access_denied Examples.cwd "edit" ≠ file_not_found "/etc/new.txt".
Proof. split_and!; evaluate. Qed.

(** * Listing a directory *)

(** The loop renders the first [max_items - count] entries and then, when
    entries are left, appends the truncation marker and stops. *)
Lemma list_loop_spec (path : string) (entries : list (string * bool))
    (count : nat) (items : list string) :
  list_loop path entries count items
  = items ++ (render_entry path <$> take (max_items - count) entries)
    ++ (if bool_decide (max_items - count < length entries)
        then [listing_truncated] else []).
Proof.
  pose (m := max_items). assert (max_items = m) as Hm by done. clearbody m.
  rewrite Hm. revert count items.
  induction entries as [|item rest IH]; intros count items.
  - rewrite take_nil, fmap_nil. cbn [list_loop length].
    rewrite bool_decide_eq_false_2 by lia. by rewrite !app_nil_r.
  - cbn [list_loop]. rewrite Hm.
    destruct (Nat.leb_spec m count) as [Hle|Hlt].
    + replace (m - count) with 0 by lia. rewrite take_0, fmap_nil.
      by rewrite bool_decide_eq_true_2 by (cbn [length]; lia).
    + rewrite IH. replace (m - count) with (S (m - S count)) by lia.
      rewrite firstn_cons, fmap_cons, <-app_assoc. simpl.
      do 3 f_equal.
      by rewrite (bool_decide_ext (m - S count < length rest)
                   (S (m - S count) < S (length rest))) by lia.
Qed.

(** The entries of [iterdir] are the children of the directory. *)
Lemma elem_of_iterdir (σ : fs) (d : abs_path) (name : string) (b : bool) :
  (name, b) ∈ iterdir σ d
  ↔ ∃ n, σ !! (d ++ [name]) = Some n
         ∧ b = match n with Dir => true | File _ => false end.
Proof.
  unfold iterdir. rewrite list_elem_of_omap. split.
  - intros ([p n] & Hin & Hentry). apply elem_of_map_to_list in Hin.
    unfold entry_of in Hentry. case_decide as Hp; [|done].
    destruct Hp as [Hp <-]. simplify_eq. exists n.
    by rewrite <-parent_snoc.
  - intros (n & Hn & ->). exists (d ++ [name], n). split.
    + by apply elem_of_map_to_list.
    + unfold entry_of. rewrite decide_True.
      * by rewrite last_last.
      * split; [by destruct d|]. apply removelast_last.
Qed.

(** C8, as the code has it.  On a directory of the working directory
    [list_files] returns the JSON text of a list that holds the first 200
    entries of the directory at most, each rendered once and in the order of
    the enumeration, followed by the truncation marker exactly when the
    directory has more than 200 entries; nothing comes after the marker, and
    a directory of at most 200 entries is listed whole without it. *)
Theorem list_files_capped (cwd : abs_path) (σ : fs) (path : string) :
  is_relative_to (resolve cwd path) cwd = true →
  is_dir σ (resolve cwd path) = true →
  let entries := iterdir σ (resolve cwd path) in
  let listed := render_entry path <$> take 200 entries in
  list_files cwd path σ
  = (json_dumps (listed ++ if bool_decide (200 < length entries)
                           then [listing_truncated] else []), σ)
  ∧ length listed ≤ 200
  ∧ (length entries ≤ 200 → listed = render_entry path <$> entries).
Proof.
  intros Hrel Hdir. cbv zeta. split_and!.
  - unfold list_files, try_except, bind, get_fs. rewrite Hrel. simpl.
    rewrite Hdir. simpl. by rewrite list_loop_spec.
  - rewrite length_fmap, length_take. lia.
  - intros Hle. by rewrite take_ge.
Qed.

Lemma list_files_capped_witness :
  is_relative_to (resolve Examples.cwd ".") Examples.cwd = true
  ∧ is_dir Examples.disk (resolve Examples.cwd ".") = true
  ∧ (let entries := iterdir Examples.disk (resolve Examples.cwd ".") in
     let listed := render_entry "." <$> take 200 entries in
     list_files Examples.cwd "." Examples.disk
     = (json_dumps (listed ++ if bool_decide (200 < length entries)
                              then [listing_truncated] else []), Examples.disk)
     ∧ length listed ≤ 200
     ∧ (length entries ≤ 200 → listed = render_entry "." <$> entries)).
Proof.
  do 2 (split; [evaluate|]).
  apply (list_files_capped Examples.cwd Examples.disk "."); evaluate.
Defined.

(** C8 as stated fails for a directory outside the working directory: [/etc]
    is a directory, and [list_files] on it returns the access-denied error,
    which is not the JSON text of any list. *)
Lemma outside_directory_not_listed :
  is_dir Examples.disk (resolve Examples.cwd "/etc") = true
  ∧ (list_files Examples.cwd "/etc" Examples.disk).1 = access_denied Examples.cwd "list"
  ∧ ∀ items, (list_files Examples.cwd "/etc" Examples.disk).1 ≠ json_dumps items.
Proof.
  split_and!; [evaluate..|].
  intros items. unfold json_dumps. rewrite str_app_cons.
  vm_compute (list_files _ _ _).1. discriminate.
Qed.

(** The listing of the example workspace, and of a directory of 201 files:
    200 entries and the marker. *)
Example list_project :
  (list_files Examples.cwd "." Examples.disk).1
  = json_dumps ["a.txt"; "sub/"].
Proof. vm_compute. reflexivity. Qed.

Example list_crowded :
  length (iterdir (Examples.crowded 201) Examples.cwd) = 201
  ∧ length (list_loop "." (iterdir (Examples.crowded 201) Examples.cwd) 0 []) = 201
  ∧ last (list_loop "." (iterdir (Examples.crowded 201) Examples.cwd) 0 [])
    = Some listing_truncated.
Proof. split_and!; vm_compute; reflexivity. Qed.

(** * The inference loop *)

Section AgentFacts.

Variable cwd : abs_path.
Variable create : list message → api_result.
Variable json_loads : string → parsed.
Variable type_error_text : string → parsed → string.
Variable ill_typed_call : tool → gmap string pyval → fs → string * fs.

Abbreviation execute_tool_call :=
  (execute_tool_call cwd json_loads type_error_text ill_typed_call).
Abbreviation execute_tool_calls :=
  (execute_tool_calls cwd json_loads type_error_text ill_typed_call).
Abbreviation tool_round :=
  (tool_round cwd json_loads type_error_text ill_typed_call).
Abbreviation run_inference_thread :=
  (run_inference_thread cwd create json_loads type_error_text ill_typed_call).
Abbreviation tool_rounds :=
  (tool_rounds cwd create json_loads type_error_text ill_typed_call).

(** The equations of the recursive definitions. *)
Lemma execute_tool_calls_cons (tc : tool_call) (tcs : list tool_call) (a : app)
    (acc : list message) :
  execute_tool_calls (tc :: tcs) a acc
  = execute_tool_calls tcs (execute_tool_call tc a).1
      (acc ++ [(execute_tool_call tc a).2]).
Proof. simpl. by destruct (execute_tool_call tc a). Qed.

Lemma run_inference_thread_S (fuel : nat) (a : app) :
  run_inference_thread (S fuel) a
  = match create (conversation_history a) with
    | Completion response_message =>
        match tool_calls response_message with
        | _ :: _ => run_inference_thread fuel (tool_round response_message (log_request a))
        | [] => Some (final_answer response_message (log_request a))
        end
    | RaisedAPIError e =>
        Some (api_failure "API Error" ("OpenAI API Error: " +:+ e) (log_request a))
    | RaisedException e =>
        Some (api_failure "Error" ("An unexpected error occurred: " +:+ e)
                (log_request a))
    end.
Proof. reflexivity. Qed.

Lemma tool_rounds_O (a : app) :
  tool_rounds 0 a
  = match create (conversation_history a) with
    | Completion response_message => tool_calls response_message = []
    | _ => False
    end.
Proof. reflexivity. Qed.

Lemma tool_rounds_S (n : nat) (a : app) :
  tool_rounds (S n) a
  = match create (conversation_history a) with
    | Completion response_message =>
        tool_calls response_message ≠ []
        ∧ tool_rounds n (tool_round response_message (log_request a))
    | _ => False
    end.
Proof. reflexivity. Qed.

(** One tool call yields one entry that answers it, whatever the tool does,
    and touches neither the history nor the log of requests nor the error
    dialogs nor the state of the input field. *)
Lemma execute_tool_call_spec (tc : tool_call) (a : app) :
  answers tc (execute_tool_call tc a).2
  ∧ conversation_history (execute_tool_call tc a).1 = conversation_history a
  ∧ requests (execute_tool_call tc a).1 = requests a
  ∧ error_boxes (execute_tool_call tc a).1 = error_boxes a
  ∧ input_enabled (execute_tool_call tc a).1 = input_enabled a.
Proof.
  unfold execute_tool_call, answers.
  repeat case_match; simplify_eq/=; eauto 10.
Qed.

Lemma execute_tool_calls_spec (tcs : list tool_call) (a : app) (acc : list message) :
  ∃ results,
    (execute_tool_calls tcs a acc).2 = acc ++ results
    ∧ Forall2 answers tcs results
    ∧ conversation_history (execute_tool_calls tcs a acc).1 = conversation_history a
    ∧ requests (execute_tool_calls tcs a acc).1 = requests a
    ∧ error_boxes (execute_tool_calls tcs a acc).1 = error_boxes a
    ∧ input_enabled (execute_tool_calls tcs a acc).1 = input_enabled a.
Proof.
  revert a acc. induction tcs as [|tc tcs IH]; intros a acc.
  - exists []. simpl. by rewrite app_nil_r.
  - rewrite execute_tool_calls_cons.
    destruct (execute_tool_call_spec tc a) as (Hans & Hh & Hr & He & Hi).
    destruct (execute_tool_call tc a) as [a1 m]. simpl in *.
    destruct (IH a1 (acc ++ [m])) as (results & Hres & Hall & Hh' & Hr' & He' & Hi').
    exists (m :: results). rewrite Hres, <-app_assoc. simpl.
    split_and!; [done|by constructor|congruence..].
Qed.

(** A round with tool calls appends the response and then one answer for
    each of its tool calls, in their order. *)
Lemma tool_round_spec (response_message : response) (a : app) :
  ∃ results,
    conversation_history (tool_round response_message a)
    = conversation_history a ++ AssistantMessage response_message :: results
    ∧ Forall2 answers (tool_calls response_message) results
    ∧ requests (tool_round response_message a) = requests a
    ∧ error_boxes (tool_round response_message a) = error_boxes a
    ∧ input_enabled (tool_round response_message a) = input_enabled a.
Proof.
  unfold tool_round.
  set (a0 := add_message_to_display _ _ _ _).
  destruct (execute_tool_calls_spec (tool_calls response_message) a0 [])
    as (results & Hres & Hall & Hh & Hr & He & Hi).
  destruct (execute_tool_calls _ a0 []) as [a1 ms]. simpl in *. subst ms.
  exists results. rewrite Hh, Hr, He, Hi. simpl.
  by rewrite <-app_assoc.
Qed.

(** The end of a turn appends the response, enables the input and shows no
    error dialog. *)
Lemma final_answer_spec (response_message : response) (a : app) :
  conversation_history (final_answer response_message a)
  = conversation_history a ++ [AssistantMessage response_message]
  ∧ requests (final_answer response_message a) = requests a
  ∧ error_boxes (final_answer response_message a) = error_boxes a
  ∧ input_enabled (final_answer response_message a) = true.
Proof. unfold final_answer. by destruct (content response_message) as [[|??]|]. Qed.



(** C2, as the code has it.  The loop has no cap: a turn that goes through
    [n] rounds of tool calls and then receives a response without tool
    calls ends normally, for every [n], once the recursion may go deeper
    than [n]; it has submitted [n + 1] histories to the endpoint, the input
    is enabled again and no error dialog was shown. *)
Theorem turn_without_cap (n fuel : nat) (a : app) :
  tool_rounds n a →
  n < fuel →
  ∃ final,
    run_inference_thread fuel a = Some final
    ∧ length (requests final) = length (requests a) + S n
    ∧ input_enabled final = true
    ∧ error_boxes final = error_boxes a.
Proof.
  revert fuel a. induction n as [|n IH]; intros [|fuel] a Hrounds Hfuel; try lia.
  - rewrite tool_rounds_O in Hrounds. rewrite run_inference_thread_S.
    destruct (create (conversation_history a)) as [r|e|e]; [|done..].
    rewrite Hrounds. eexists. split; [done|].
    destruct (final_answer_spec r (log_request a)) as (_ & -> & -> & ->).
    simpl. rewrite length_app. simpl. split_and!; [lia|done..].
  - rewrite tool_rounds_S in Hrounds. rewrite run_inference_thread_S.
    destruct (create (conversation_history a)) as [r|e|e]; [|done..].
    destruct Hrounds as [Hcalls Hrounds].
    destruct (tool_calls r) eqn:Htc; [done|].
    destruct (IH fuel _ Hrounds) as (final & Hrun & Hlen & Hin & Herr); [lia|].
    exists final.
    destruct (tool_round_spec r (log_request a)) as (results & _ & _ & Hr & He & _).
    rewrite Hr in Hlen. rewrite He in Herr. simpl in *.
    rewrite length_app in Hlen. simpl in Hlen.
    split_and!; [done|lia|done..].
Qed.

End AgentFacts.


(** The first round of the example turn: the two tool results follow the
    response in the history, with the ids of the two calls. *)
Example first_round_history :
  conversation_history
    (tool_round Examples.cwd Examples.json_loads Examples.type_error_text
       Examples.ill_typed_call
       (Response None
          [ ToolCall "call_0a" "read_file" (Examples.args_path "a.txt");
            ToolCall "call_0b" "list_files" "{}" ])
       (log_request Examples.started))
  = [ UserMessage "go";
      AssistantMessage (Response None
        [ ToolCall "call_0a" "read_file" (Examples.args_path "a.txt");
          ToolCall "call_0b" "list_files" "{}" ]);
      ToolMessage "call_0a" "read_file" "hello";
      ToolMessage "call_0b" "list_files" (json_dumps ["a.txt"; "sub/"]) ].
Proof. vm_compute. reflexivity. Qed.

Lemma turn_without_cap_witness :
  tool_rounds Examples.cwd (Examples.create_rounds 2) Examples.json_loads
    Examples.type_error_text Examples.ill_typed_call 2 Examples.started
  ∧ 2 < 3
  ∧ ∃ final,
      run_inference_thread Examples.cwd (Examples.create_rounds 2)
        Examples.json_loads Examples.type_error_text Examples.ill_typed_call
        3 Examples.started = Some final
      ∧ length (requests final) = length (requests Examples.started) + 3
      ∧ input_enabled final = true
      ∧ error_boxes final = error_boxes Examples.started.
Proof.
  assert (tool_rounds Examples.cwd (Examples.create_rounds 2) Examples.json_loads
            Examples.type_error_text Examples.ill_typed_call 2 Examples.started)
    as Hrounds by (vm_compute; repeat split; discriminate).
  split; [done|]. split; [lia|].
  apply (turn_without_cap Examples.cwd (Examples.create_rounds 2)
           Examples.json_loads Examples.type_error_text Examples.ill_typed_call
           2 3 Examples.started); [done|lia].
Defined.

(** C2 as stated fails.  The turn below goes through 26 rounds of tool calls,
    one more than the cap of 25 that the specification suggests, and it
    neither fails nor stops calling the endpoint: the 27 histories are all
    submitted, no error is shown, and the last thing displayed is the answer
    of the model. *)
Lemma no_tool_loop_exceeded :
  tool_rounds Examples.cwd (Examples.create_rounds 26) Examples.json_loads
    Examples.type_error_text Examples.ill_typed_call 26 Examples.started
  ∧ match run_inference_thread Examples.cwd (Examples.create_rounds 26)
            Examples.json_loads Examples.type_error_text Examples.ill_typed_call
            27 Examples.started with
    | Some final =>
        length (requests final) = 27
        ∧ error_boxes final = []
        ∧ forallb (λ entry, negb (String.eqb entry.1.1 "Error")) (message_queue final)
          = true
        ∧ last (message_queue final) = Some ("Agent", "done", None)
        ∧ input_enabled final = true
    | None => False
    end.
Proof.
  split.
  - vm_compute. repeat split; discriminate.
  - vm_compute. repeat split.
Qed.

(** * Further properties of the tools *)

(** ** Reading *)

(** X1.  [read_file] and [list_files] are read-only: whatever the path and
    the filesystem, the filesystem they return is the one they were given. *)
Theorem reading_keeps_the_filesystem (cwd : abs_path) (path : string) (σ : fs) :
  (read_file cwd path σ).2 = σ ∧ (list_files cwd path σ).2 = σ.
Proof.
  split.
  - unfold read_file, try_except, bind, get_fs, read_text, ret.
    repeat case_match; by simplify_eq/=.
  - unfold list_files, try_except, bind, get_fs, ret.
    repeat case_match; by simplify_eq/=.
Qed.

(** X2.  On a path of the working directory that is missing or is not a
    regular file, [read_file] answers that the path is not a file or does
    not exist, and on one that is missing or is not a directory [list_files]
    answers that it is not a directory or does not exist. *)
Theorem wrong_kind_of_path (cwd : abs_path) (path : string) (σ : fs) :
  is_relative_to (resolve cwd path) cwd = true →
  (is_file σ (resolve cwd path) = false →
   read_file cwd path σ
   = ("Error: Path '" +:+ path +:+ "' is not a file or does not exist.", σ))
  ∧ (is_dir σ (resolve cwd path) = false →
     list_files cwd path σ
     = ("Error: Path '" +:+ path +:+ "' is not a directory or does not exist.", σ)).
Proof.
  intros Hrel. split; intros Hkind.
  - unfold read_file, try_except, bind, get_fs, ret.
    rewrite Hrel. cbn [negb]. by rewrite Hkind.
  - unfold list_files, try_except, bind, get_fs, ret.
    rewrite Hrel. cbn [negb]. by rewrite Hkind.
Qed.

Lemma wrong_kind_of_path_witness :
  is_relative_to (resolve Examples.cwd "sub") Examples.cwd = true
  ∧ is_file Examples.disk (resolve Examples.cwd "sub") = false
  ∧ is_dir Examples.disk (resolve Examples.cwd "a.txt") = false
  ∧ read_file Examples.cwd "sub" Examples.disk
    = ("Error: Path '" +:+ "sub" +:+ "' is not a file or does not exist.", Examples.disk)
  ∧ list_files Examples.cwd "a.txt" Examples.disk
    = ("Error: Path '" +:+ "a.txt" +:+ "' is not a directory or does not exist.",
       Examples.disk).
Proof.
  do 3 (split; [evaluate|]). split.
  - apply (wrong_kind_of_path Examples.cwd "sub" Examples.disk); evaluate.
  - apply (wrong_kind_of_path Examples.cwd "a.txt" Examples.disk); evaluate.
Defined.

Lemma take_app_take (n : nat) (c x : string) :
  n ≤ String.length c → Py.take n (Py.take n c +:+ x) = Py.take n c.
Proof.
  revert c. induction n as [|n IH]; intros [|a c] Hlen; simpl in *;
    try done; try lia.
  rewrite IH by lia. done.
Qed.

(** X3.  What [read_file] returns for a file of the working directory is
    bounded: it is the content itself when that has at most 10000
    characters, and otherwise the first 10000 characters followed by the
    truncation marker, so it never has more than 10000 characters of the
    file and never more characters than the cap and the marker together. *)
Theorem read_file_bounded (cwd : abs_path) (σ : fs) (path c : string) :
  is_relative_to (resolve cwd path) cwd = true →
  node_at σ (resolve cwd path) = Some (File c) →
  let r := (read_file cwd path σ).1 in
  (String.length c ≤ max_len → r = c)
  ∧ (max_len < String.length c → r = Py.take max_len c +:+ file_truncated)
  ∧ Py.take max_len r = Py.take max_len c
  ∧ String.length r ≤ max_len + String.length file_truncated.
Proof.
  intros Hrel Hnode. cbv zeta. rewrite (read_file_existing cwd σ path c) by done.
  cbn [fst]. destruct (Nat.ltb_spec max_len (String.length c)) as [Hlong|Hshort].
  - split_and!; [lia|done|apply take_app_take; lia|].
    rewrite str_length_app, str_length_take. lia.
  - split_and!; [done|lia|done|lia].
Qed.

Lemma read_file_bounded_witness :
  is_relative_to (resolve Examples.cwd "long.txt") Examples.cwd = true
  ∧ node_at Examples.disk_with_long (resolve Examples.cwd "long.txt")
    = Some (File (Examples.copies (S max_len) "a"))
  ∧ String.length (read_file Examples.cwd "long.txt" Examples.disk_with_long).1
    ≤ max_len + String.length file_truncated.
Proof.
  do 2 (split; [evaluate|]).
  apply (read_file_bounded Examples.cwd Examples.disk_with_long "long.txt"
           (Examples.copies (S max_len) "a")); evaluate.
Defined.

(** ** Listing *)

(** The names that [iterdir] gives are distinct. *)
Lemma iterdir_names_distinct (σ : fs) (d : abs_path) : NoDup (iterdir σ d).*1.
Proof.
  unfold iterdir. pose proof (NoDup_fst_map_to_list σ) as Hnd.
  assert (∀ kv, kv ∈ map_to_list σ → ∀ e, entry_of d kv = Some e →
            kv.1 = d ++ [e.1]) as Hkey.
  { intros [p n] _ e He. unfold entry_of in He. case_decide as Hp; [|done].
    destruct Hp as [Hp <-]. simplify_eq/=. by apply parent_snoc. }
  induction (map_to_list σ) as [|kv l IH]; [constructor|].
  apply NoDup_cons in Hnd as [Hnotin Hnd]. simpl.
  destruct (entry_of d kv) as [e|] eqn:He; simpl.
  - apply NoDup_cons. split.
    + intros Hin. apply Hnotin.
      apply list_elem_of_fmap in Hin as (e' & Hname & Hin).
      apply list_elem_of_omap in Hin as (kv' & Hin & He').
      apply list_elem_of_fmap. exists kv'. split; [|done].
      rewrite (Hkey kv ltac:(by left) e He).
      rewrite (Hkey kv' ltac:(by right) e' He').
      by rewrite Hname.
    + apply IH; [done|]. intros kv' Hin. apply Hkey. by right.
  - apply IH; [done|]. intros kv' Hin. apply Hkey. by right.
Qed.

(** X4.  A directory of the working directory with at most 200 entries is
    listed whole: the list holds one text for each child of the directory
    and nothing else, the names it lists are distinct, and the text of a
    child is the path given joined with its name, with a slash after it
    when the child is a directory. *)
Theorem list_files_complete (cwd : abs_path) (σ : fs) (path : string) :
  is_relative_to (resolve cwd path) cwd = true →
  is_dir σ (resolve cwd path) = true →
  length (iterdir σ (resolve cwd path)) ≤ 200 →
  list_files cwd path σ
  = (json_dumps (render_entry path <$> iterdir σ (resolve cwd path)), σ)
  ∧ NoDup (iterdir σ (resolve cwd path)).*1
  ∧ (∀ name b,
       (name, b) ∈ iterdir σ (resolve cwd path)
       ↔ ∃ n, σ !! (resolve cwd path ++ [name]) = Some n ∧ b = node_is_dir n)
  ∧ (∀ name,
       render_entry path (name, true) = joinpath_str path name +:+ "/"
       ∧ render_entry path (name, false) = joinpath_str path name).
Proof.
  intros Hrel Hdir Hlen. split_and!.
  - unfold list_files, try_except, bind, get_fs, ret.
    rewrite Hrel. cbn [negb]. rewrite Hdir. cbn [negb].
    rewrite list_loop_spec, Nat.sub_0_r.
    rewrite take_ge by (unfold max_items; lia).
    rewrite bool_decide_eq_false_2 by (unfold max_items; lia).
    by rewrite app_nil_r.
  - apply iterdir_names_distinct.
  - intros name b. apply elem_of_iterdir.
  - done.
Qed.

Lemma list_files_complete_witness :
  is_relative_to (resolve Examples.cwd "sub/..") Examples.cwd = true
  ∧ is_dir Examples.disk (resolve Examples.cwd "sub/..") = true
  ∧ length (iterdir Examples.disk (resolve Examples.cwd "sub/..")) ≤ 200
  ∧ list_files Examples.cwd "sub/.." Examples.disk
    = (json_dumps (render_entry "sub/.." <$>
                     iterdir Examples.disk (resolve Examples.cwd "sub/..")),
       Examples.disk)
  ∧ (list_files Examples.cwd "sub/.." Examples.disk).1
    = json_dumps ["sub/../a.txt"; "sub/../sub/"].
Proof.
  do 2 (split; [evaluate|]). split; [vm_compute; lia|]. split; [|evaluate].
  apply (list_files_complete Examples.cwd Examples.disk "sub/..");
    [evaluate..|vm_compute; lia].
Defined.

(** ** The cases of [edit_file] *)

Lemma prefix_parent_or_eq (q p : abs_path) :
  q `prefix_of` p → q = p ∨ q `prefix_of` parent p.
Proof.
  intros [k Hk]. destruct (decide (k = [])) as [->|Hne].
  - left. by rewrite app_nil_r in Hk.
  - right. destruct (exists_last Hne) as (k' & y & ->).
    exists k'. rewrite Hk. unfold parent.
    by rewrite (assoc (++)), removelast_last.
Qed.

Lemma parent_of_prefix (q p : abs_path) :
  q `prefix_of` parent p → parent q `prefix_of` parent p.
Proof. intros Hq. etrans; [apply parent_prefix|done]. Qed.

(** When the checks of [mkdir_parents] pass and nothing is at the place, no
    regular file lies on the way to it. *)
Lemma no_file_on_the_way (σ : fs) (p : abs_path) :
  exists_ σ p = false →
  is_file σ (parent p) = false →
  ¬ Exists (λ q, is_file σ q = true) (ancestors_and_self (parent p)) →
  ∀ q, q `prefix_of` p → is_file σ q = false.
Proof.
  intros Hmiss Hparent Hnone q Hq.
  apply prefix_parent_or_eq in Hq as [->|Hq].
  - unfold exists_ in Hmiss. unfold is_file. by destruct (node_at σ p).
  - destruct (decide (q = [])) as [->|Hq0]; [done|].
    destruct (is_file σ q) eqn:Hfile; [|done].
    exfalso. apply Hnone, Exists_exists. exists q. split; [|done].
    by apply elem_of_ancestors_and_self.
Qed.

Section EditFileCases.

Variable cwd : abs_path.

(** On a place where nothing exists [create_new_file] either creates the
    file, the way to it being free of regular files, or changes nothing. *)
Lemma create_new_file_cases (σ : fs) (path content : string) :
  exists_ σ (resolve cwd path) = false →
  (is_relative_to (resolve cwd path) cwd = true
   ∧ (∀ q, q `prefix_of` resolve cwd path → is_file σ q = false)
   ∧ create_new_file cwd path content σ
     = ("Successfully created file " +:+ path, created cwd σ path content))
  ∨ (create_new_file cwd path content σ).2 = σ.
Proof.
  intros Hmiss.
  destruct (is_relative_to (resolve cwd path) cwd) eqn:Hrel; last first.
  { right. unfold create_new_file, try_except. by rewrite Hrel. }
  destruct (is_file σ (parent (resolve cwd path))) eqn:Hparent.
  { right. unfold create_new_file, try_except, bind, mkdir_parents.
    rewrite Hrel. cbn [negb]. by rewrite Hparent. }
  destruct (decide (Exists (λ q, is_file σ q = true)
                      (ancestors_and_self (parent (resolve cwd path)))))
    as [Hex|Hnone].
  { right. unfold create_new_file, try_except, bind, mkdir_parents.
    rewrite Hrel. cbn [negb]. rewrite Hparent.
    by rewrite bool_decide_eq_true_2. }
  left. pose proof (no_file_on_the_way σ _ Hmiss Hparent Hnone) as Hdirs.
  split_and!; [done..|]. by apply create_new_file_missing.
Qed.

(** Every call of [edit_file] changes nothing, or rewrites the regular file
    at the place and answers [OK], or creates the file at a place where
    nothing was and answers with the confirmation. *)
Lemma edit_file_cases (σ : fs) (path old_str new_str : string) :
  (edit_file cwd path old_str new_str σ).2 = σ
  ∨ (is_relative_to (resolve cwd path) cwd = true
     ∧ ∃ c c',
         node_at σ (resolve cwd path) = Some (File c)
         ∧ edit_file cwd path old_str new_str σ
           = ("OK", <[resolve cwd path := File c']> σ))
  ∨ (is_relative_to (resolve cwd path) cwd = true
     ∧ exists_ σ (resolve cwd path) = false
     ∧ (∀ q, q `prefix_of` resolve cwd path → is_file σ q = false)
     ∧ edit_file cwd path old_str new_str σ
       = ("Successfully created file " +:+ path, created cwd σ path new_str)).
Proof.
  unfold edit_file.
  destruct (decide (old_str = new_str)); [by left|].
  destruct (decide (path = "")); [by left|].
  unfold try_except, bind, get_fs, ret.
  destruct (is_relative_to (resolve cwd path) cwd) eqn:Hrel; [|by left].
  cbn [negb].
  destruct (exists_ σ (resolve cwd path)) eqn:Hex; cbn [negb].
  - unfold is_file, read_text.
    destruct (node_at σ (resolve cwd path)) as [[c|]|] eqn:Hnode;
      cbn [negb]; [|by left..].
    rewrite Hnode.
    destruct (negb (bool_decide (unescape old_str = "")) &&
              negb (Py.contains (unescape old_str) c)); [by left|].
    destruct (negb (bool_decide (unescape old_str = "")) &&
              bool_decide (Py.replace c (unescape old_str) (unescape new_str) = c));
      [by left|].
    right. left. split; [done|]. exists c, (Py.replace c (unescape old_str) (unescape new_str)).
    split; [done|]. unfold write_text. by rewrite Hnode.
  - destruct (decide (old_str = "")); [|by left].
    destruct (create_new_file_cases σ path new_str Hex) as [(_ & Hdirs & Hcreate)|Hsame].
    + right. right. by rewrite Hcreate.
    + left. by destruct (create_new_file cwd path new_str σ).
Qed.

End EditFileCases.

(** ** What [edit_file] leaves alone *)

(** X5.  The refusals of [edit_file] leave the filesystem alone: whenever
    the answer is one of the texts with which [edit_file] returns before it
    creates or writes anything (equal strings, empty path, path outside the
    working directory, missing file with a pattern, path that is not a
    file, pattern not found, replacement without effect), the filesystem is
    exactly as it was; neither [OK] nor an answer of [create_new_file] is
    one of these texts. *)
Theorem edit_file_fails_cleanly (cwd : abs_path) (σ : fs)
    (path old_str new_str : string) :
  refusal cwd path old_str new_str (edit_file cwd path old_str new_str σ).1 →
  (edit_file cwd path old_str new_str σ).2 = σ.
Proof.
  intros Hrefusal.
  destruct (edit_file_cases cwd σ path old_str new_str)
    as [Hsame|[(_ & c & c' & _ & Hedit)|(_ & _ & _ & Hedit)]]; [done|..];
    exfalso; rewrite Hedit in Hrefusal; cbn [fst] in Hrefusal;
    unfold refusal, no_op_edit, access_denied, file_not_found, pattern_not_found,
      no_change_warning in Hrefusal;
    destruct Hrefusal as [H|[H|[H|[H|[H|[[original_content H]|H]]]]]];
    try discriminate H;
    by destruct (Py.contains (Py.strip old_str) original_content).
Qed.

Lemma edit_file_fails_cleanly_witness :
  refusal Examples.cwd "a.txt" "zz" "y"
    (edit_file Examples.cwd "a.txt" "zz" "y" Examples.disk).1
  ∧ (edit_file Examples.cwd "a.txt" "zz" "y" Examples.disk).2 = Examples.disk.
Proof.
  assert (refusal Examples.cwd "a.txt" "zz" "y"
            (edit_file Examples.cwd "a.txt" "zz" "y" Examples.disk).1) as Hrefusal.
  { do 5 right. left. exists "hello". evaluate. }
  split; [done|].
  by apply (edit_file_fails_cleanly Examples.cwd Examples.disk "a.txt" "zz" "y").
Defined.

(** X6.  [edit_file] never removes a path and never touches a node other
    than the one at the place it was given: every other node that existed
    is there afterwards, unchanged, and the place itself is not lost. *)
Theorem edit_file_keeps_other_nodes (cwd : abs_path) (σ : fs)
    (path old_str new_str : string) (q : abs_path) (n : node) :
  σ !! q = Some n →
  (q ≠ resolve cwd path → (edit_file cwd path old_str new_str σ).2 !! q = Some n)
  ∧ is_Some ((edit_file cwd path old_str new_str σ).2 !! q).
Proof.
  intros Hq.
  destruct (edit_file_cases cwd σ path old_str new_str)
    as [Hsame|[(_ & c & c' & _ & Hedit)|(_ & Hmiss & Hdirs & Hedit)]].
  - rewrite Hsame. eauto.
  - rewrite Hedit. cbn [snd]. split.
    + intros Hne. by rewrite lookup_insert_ne.
    + destruct (decide (resolve cwd path = q)) as [<-|Hne].
      * rewrite lookup_insert_eq. eauto.
      * rewrite lookup_insert_ne by done. eauto.
  - rewrite Hedit. cbn [snd].
    destruct (created_lookup cwd σ path new_str Hmiss Hdirs) as (_ & _ & _ & Hkept).
    rewrite (Hkept q n Hq). eauto.
Qed.

Lemma edit_file_keeps_other_nodes_witness :
  Examples.disk !! ["home"; "user"; "project"; "sub"; "x.py"] = Some (File "aaa")
  ∧ ["home"; "user"; "project"; "sub"; "x.py"] ≠ resolve Examples.cwd "a.txt"
  ∧ (edit_file Examples.cwd "a.txt" "hello" "bye" Examples.disk).2
      !! ["home"; "user"; "project"; "sub"; "x.py"] = Some (File "aaa").
Proof.
  do 2 (split; [evaluate|]).
  apply (edit_file_keeps_other_nodes Examples.cwd Examples.disk "a.txt" "hello" "bye"
           ["home"; "user"; "project"; "sub"; "x.py"] (File "aaa")); evaluate.
Defined.

(** X7.  [edit_file] stays inside the working directory: when the working
    directory and the directories above it exist, no path outside the
    working directory is added, removed or changed by any call. *)
Theorem edit_file_confined (cwd : abs_path) (σ : fs)
    (path old_str new_str : string) (q : abs_path) :
  cwd_exists cwd σ →
  ¬ cwd `prefix_of` q →
  (edit_file cwd path old_str new_str σ).2 !! q = σ !! q.
Proof.
  intros Hcwd Hout.
  destruct (edit_file_cases cwd σ path old_str new_str)
    as [Hsame|[(Hrel & c & c' & _ & Hedit)|(Hrel & Hmiss & Hdirs & Hedit)]].
  - by rewrite Hsame.
  - rewrite Hedit. cbn [snd]. apply lookup_insert_ne. intros <-.
    by apply bool_decide_eq_true in Hrel.
  - rewrite Hedit. cbn [snd]. apply bool_decide_eq_true in Hrel.
    destruct (σ !! q) as [n|] eqn:Hq.
    + by apply (created_lookup cwd σ path new_str Hmiss Hdirs).
    + unfold created. rewrite lookup_insert_ne by (by intros <-).
      rewrite fold_mkdir_one_lookup, Hq.
      rewrite bool_decide_eq_false_2; [done|].
      intros [Hq0 Hpre]%elem_of_ancestors_and_self.
      assert (q `prefix_of` resolve cwd path) as Hpre'
        by (etrans; [done|apply parent_prefix]).
      destruct (prefix_weak_total _ _ _ Hrel Hpre') as [?|Hqcwd]; [done|].
      unfold cwd_exists in Hcwd. rewrite Forall_forall in Hcwd.
      destruct (Hcwd q) as [n Hn]; [by apply elem_of_ancestors_and_self|].
      congruence.
Qed.

Lemma example_cwd_exists : cwd_exists Examples.cwd Examples.disk.
Proof.
  unfold cwd_exists. apply (bool_decide_unpack _). by vm_compute.
Qed.

Lemma edit_file_confined_witness :
  cwd_exists Examples.cwd Examples.disk
  ∧ ¬ Examples.cwd `prefix_of` ["etc"; "passwd"]
  ∧ (edit_file Examples.cwd "../../../etc/passwd" "root" "toor" Examples.disk).2
      !! ["etc"; "passwd"]
    = Examples.disk !! ["etc"; "passwd"].
Proof.
  split; [apply example_cwd_exists|].
  assert (¬ Examples.cwd `prefix_of` ["etc"; "passwd"]) as Hout.
  { intros [k Hk]. discriminate Hk. }
  split; [done|].
  by apply (edit_file_confined Examples.cwd Examples.disk
              "../../../etc/passwd" "root" "toor" ["etc"; "passwd"]
              example_cwd_exists).
Defined.

(** ** Well-formed filesystems *)

Lemma well_formed_lookup (σ : fs) (p : abs_path) (n : node) :
  well_formed σ → σ !! p = Some n → node_at σ (parent p) = Some Dir.
Proof. intros Hwf Hp. by apply (Hwf p n). Qed.

(** In a well-formed filesystem everything above an existing node is a
    directory. *)
Lemma well_formed_ancestors (σ : fs) (p : abs_path) (n : node) :
  well_formed σ → σ !! p = Some n →
  ∀ q, q `prefix_of` parent p → node_at σ q = Some Dir.
Proof.
  intros Hwf. revert n.
  induction p as [|x d IH] using rev_ind; intros n Hp q Hq.
  - apply prefix_nil_inv in Hq as ->. done.
  - unfold parent in Hq. rewrite removelast_last in Hq.
    pose proof (well_formed_lookup σ _ n Hwf Hp) as Hd.
    unfold parent in Hd. rewrite removelast_last in Hd.
    apply prefix_parent_or_eq in Hq as [->|Hq]; [done|].
    destruct (decide (d = [])) as [->|Hd0].
    + apply prefix_nil_inv in Hq as ->. done.
    + rewrite node_at_lookup in Hd by done. by eapply IH.
Qed.

(** Rewriting a regular file keeps the filesystem well formed. *)
Lemma well_formed_overwrite (σ : fs) (p : abs_path) (c c' : string) :
  well_formed σ → node_at σ p = Some (File c) →
  well_formed (<[p := File c']> σ).
Proof.
  intros Hwf Hnode q n Hq.
  assert (p ≠ []) as Hp by (by eapply node_at_file_nonroot).
  assert (σ !! p = Some (File c)) as Hlookup by (by rewrite <-node_at_lookup).
  assert (node_at σ (parent q) = Some Dir) as Hparent.
  { destruct (decide (p = q)) as [<-|Hne].
    - by eapply well_formed_lookup.
    - rewrite lookup_insert_ne in Hq by done. by eapply well_formed_lookup. }
  destruct (decide (parent q = [])) as [->|Hpq]; [done|].
  rewrite node_at_lookup in * by done.
  rewrite lookup_insert_ne; [done|]. intros E. congruence.
Qed.

(** Creating a file, on a way free of regular files, keeps the filesystem
    well formed. *)
Lemma well_formed_created (cwd : abs_path) (σ : fs) (path content : string) :
  well_formed σ →
  exists_ σ (resolve cwd path) = false →
  (∀ q, q `prefix_of` resolve cwd path → is_file σ q = false) →
  well_formed (created cwd σ path content).
Proof.
  intros Hwf Hmiss Hdirs q n Hq.
  destruct (created_lookup cwd σ path content Hmiss Hdirs)
    as (_ & Hway & Hother & Hkept).
  destruct (decide (q `prefix_of` resolve cwd path)) as [Hpre|Hout].
  - apply Hway. apply prefix_parent_or_eq in Hpre as [->|Hpre]; [done|].
    by apply parent_of_prefix.
  - rewrite Hother in Hq by done.
    pose proof (well_formed_lookup σ q n Hwf Hq) as Hparent.
    destruct (decide (parent q = [])) as [->|Hpq]; [done|].
    rewrite node_at_lookup in * by done. by apply Hkept.
Qed.

(** X8.  [edit_file] keeps the filesystem well formed: if every node lies
    in a directory before a call, every node lies in a directory after it,
    whatever the arguments are. *)
Theorem edit_file_keeps_well_formed (cwd : abs_path) (σ : fs)
    (path old_str new_str : string) :
  well_formed σ → well_formed (edit_file cwd path old_str new_str σ).2.
Proof.
  intros Hwf.
  destruct (edit_file_cases cwd σ path old_str new_str)
    as [Hsame|[(_ & c & c' & Hnode & Hedit)|(_ & Hmiss & Hdirs & Hedit)]].
  - by rewrite Hsame.
  - rewrite Hedit. by eapply well_formed_overwrite.
  - rewrite Hedit. by apply well_formed_created.
Qed.

Lemma example_well_formed : well_formed Examples.disk.
Proof. unfold well_formed. apply (bool_decide_unpack _). by vm_compute. Qed.

Lemma edit_file_keeps_well_formed_witness :
  well_formed Examples.disk
  ∧ well_formed (edit_file Examples.cwd "new/dir/b.txt" "" "content" Examples.disk).2.
Proof.
  split; [apply example_well_formed|].
  apply (edit_file_keeps_well_formed Examples.cwd Examples.disk
           "new/dir/b.txt" "" "content" example_well_formed).
Defined.

(** ** Creating, then reading *)

(** X9.  A file created by [edit_file] with a text without carriage return
    reads back: after a successful creation with such a [new_str],
    [read_file] on the same path returns [new_str], cut to 10000 characters
    and the truncation marker when it is longer, and does not change the
    filesystem.  (A carriage return that is written is read as a line
    feed, so another text would not read back.) *)
Theorem create_then_read (cwd : abs_path) (σ : fs) (path new_str : string) :
  is_dir σ cwd = true →
  is_relative_to (resolve cwd path) cwd = true →
  exists_ σ (resolve cwd path) = false →
  new_str ≠ "" →
  Py.contains CR new_str = false →
  (∀ q, q `prefix_of` resolve cwd path → is_file σ q = false) →
  read_file cwd path (edit_file cwd path "" new_str σ).2
  = (truncated new_str, (edit_file cwd path "" new_str σ).2).
Proof.
  intros Hcwd Hrel Hmiss Hnew Hplain Hdirs.
  pose proof (missing_path_nonempty cwd σ path Hcwd Hmiss) as Hpath.
  assert (edit_file cwd path "" new_str σ
          = ("Successfully created file " +:+ path, created cwd σ path new_str))
    as ->.
  { unfold edit_file. rewrite !decide_False by done.
    unfold try_except, bind, get_fs. rewrite Hrel. simpl. rewrite Hmiss. simpl.
    by rewrite create_new_file_missing. }
  cbn [snd]. apply read_file_existing; [done|].
  by apply created_lookup.
Qed.

Lemma create_then_read_witness :
  is_dir Examples.disk Examples.cwd = true
  ∧ is_relative_to (resolve Examples.cwd "new/b.txt") Examples.cwd = true
  ∧ exists_ Examples.disk (resolve Examples.cwd "new/b.txt") = false
  ∧ "content" ≠ ""
  ∧ Py.contains CR "content" = false
  ∧ (∀ q, q `prefix_of` resolve Examples.cwd "new/b.txt" →
       is_file Examples.disk q = false)
  ∧ read_file Examples.cwd "new/b.txt"
      (edit_file Examples.cwd "new/b.txt" "" "content" Examples.disk).2
    = (truncated "content",
       (edit_file Examples.cwd "new/b.txt" "" "content" Examples.disk).2).
Proof.
  assert (∀ q, q `prefix_of` resolve Examples.cwd "new/b.txt" →
            is_file Examples.disk q = false) as Hway.
  { intros q [k Hk]. vm_compute in Hk.
    repeat (destruct q as [|? q]; [evaluate|]; simplify_eq/=). }
  do 5 (split; [evaluate|]). split; [done|].
  apply (create_then_read Examples.cwd Examples.disk "new/b.txt" "content");
    [evaluate..|done].
Defined.

(** ** Editing with plain strings *)

(** X11.  With strings that hold no backslash the unescaping does nothing,
    so [edit_file] replaces [old_str] itself: on a file of the working
    directory that holds the non-empty [old_str], with [new_str] different
    from it, the call answers [OK] and the file holds its content with every
    occurrence of [old_str] replaced by [new_str]. *)
Theorem edit_file_plain_strings (cwd : abs_path) (σ : fs)
    (path old_str new_str c : string) :
  is_dir σ cwd = true →
  is_relative_to (resolve cwd path) cwd = true →
  node_at σ (resolve cwd path) = Some (File c) →
  Py.contains BACKSLASH old_str = false →
  Py.contains BACKSLASH new_str = false →
  old_str ≠ "" →
  old_str ≠ new_str →
  Py.contains old_str c = true →
  unescape old_str = old_str
  ∧ unescape new_str = new_str
  ∧ edit_file cwd path old_str new_str σ
    = ("OK", <[resolve cwd path := File (Py.replace c old_str new_str)]> σ).
Proof.
  intros Hcwd Hrel Hnode Hold Hnew Hnonempty Hne Hin.
  pose proof (unescape_id old_str Hold) as Eold.
  pose proof (unescape_id new_str Hnew) as Enew.
  split_and!; [done..|].
  rewrite (edit_file_existing cwd σ path old_str new_str c)
    by eauto using file_path_nonempty.
  cbv zeta. rewrite Eold, Enew, Hin.
  rewrite (bool_decide_eq_false_2 (old_str = "")) by done.
  rewrite bool_decide_eq_false_2; [done|].
  by apply replace_changes.
Qed.

Lemma edit_file_plain_strings_witness :
  is_dir Examples.disk Examples.cwd = true
  ∧ is_relative_to (resolve Examples.cwd "a.txt") Examples.cwd = true
  ∧ node_at Examples.disk (resolve Examples.cwd "a.txt") = Some (File "hello")
  ∧ Py.contains BACKSLASH "hello" = false
  ∧ Py.contains BACKSLASH "hello world" = false
  ∧ "hello" ≠ ""
  ∧ "hello" ≠ "hello world"
  ∧ Py.contains "hello" "hello" = true
  ∧ edit_file Examples.cwd "a.txt" "hello" "hello world" Examples.disk
    = ("OK", <[resolve Examples.cwd "a.txt" :=
                 File (Py.replace "hello" "hello" "hello world")]> Examples.disk).
Proof.
  do 8 (split; [evaluate|]).
  apply (edit_file_plain_strings Examples.cwd Examples.disk "a.txt"
           "hello" "hello world" "hello"); evaluate.
Defined.

(** ** What [edit_file] refuses *)

(** X12.  With different strings, [edit_file] refuses the empty path, and
    refuses a path of the working directory at which something other than a
    regular file exists; both times it says so and changes nothing. *)
Theorem edit_file_refuses (cwd : abs_path) (σ : fs) (path old_str new_str : string) :
  old_str ≠ new_str →
  edit_file cwd "" old_str new_str σ = ("Error: 'path' cannot be empty.", σ)
  ∧ (path ≠ "" →
     is_relative_to (resolve cwd path) cwd = true →
     is_dir σ (resolve cwd path) = true →
     edit_file cwd path old_str new_str σ
     = ("Error: Path '" +:+ path +:+ "' exists but is not a file.", σ)).
Proof.
  intros Hne. split.
  - unfold edit_file. rewrite decide_False by done. by rewrite decide_True.
  - intros Hpath Hrel Hdir. unfold edit_file. rewrite !decide_False by done.
    unfold try_except, bind, get_fs, ret, exists_, is_file in *.
    rewrite Hrel. cbn [negb]. unfold is_dir in Hdir.
    by destruct (node_at σ (resolve cwd path)) as [[]|].
Qed.

Lemma edit_file_refuses_witness :
  "a" ≠ "b"
  ∧ edit_file Examples.cwd "" "a" "b" Examples.disk
    = ("Error: 'path' cannot be empty.", Examples.disk)
  ∧ edit_file Examples.cwd "sub" "a" "b" Examples.disk
    = ("Error: Path '" +:+ "sub" +:+ "' exists but is not a file.", Examples.disk).
Proof.
  split; [evaluate|]. split.
  - apply (edit_file_refuses Examples.cwd Examples.disk "sub" "a" "b"); evaluate.
  - apply (edit_file_refuses Examples.cwd Examples.disk "sub" "a" "b"); evaluate.
Defined.

(** ** [create_new_file] on a file that exists *)

Lemma fold_mkdir_one_present (l : list abs_path) (σ : fs) :
  Forall (λ q, is_Some (σ !! q)) l → fold_left mkdir_one l σ = σ.
Proof.
  induction 1 as [|q l [n Hq] _ IH]; [done|].
  simpl. unfold mkdir_one at 2. by rewrite Hq.
Qed.

(** X13.  [create_new_file] does not look whether the file exists: called on
    a regular file of the working directory, in a well-formed filesystem, it
    makes no directory, replaces the content of the file by the one given
    and reports a creation. *)
Theorem create_new_file_overwrites (cwd : abs_path) (σ : fs)
    (path content c : string) :
  well_formed σ →
  is_relative_to (resolve cwd path) cwd = true →
  node_at σ (resolve cwd path) = Some (File c) →
  create_new_file cwd path content σ
  = ("Successfully created file " +:+ path, <[resolve cwd path := File content]> σ).
Proof.
  intros Hwf Hrel Hnode.
  assert (resolve cwd path ≠ []) as Hp by (by eapply node_at_file_nonroot).
  assert (σ !! resolve cwd path = Some (File c)) as Hlookup
    by (by rewrite <-node_at_lookup).
  pose proof (well_formed_ancestors σ _ _ Hwf Hlookup) as Hway.
  assert (Forall (λ q, σ !! q = Some Dir)
            (ancestors_and_self (parent (resolve cwd path)))) as Hdirs.
  { apply Forall_forall. intros q [Hq0 Hq]%elem_of_ancestors_and_self.
    rewrite <-node_at_lookup by done. by apply Hway. }
  unfold create_new_file, try_except, bind, mkdir_parents, write_text, ret.
  rewrite Hrel. cbn [negb].
  assert (is_file σ (parent (resolve cwd path)) = false) as ->.
  { unfold is_file. by rewrite (Hway (parent (resolve cwd path))). }
  rewrite bool_decide_eq_false_2; last first.
  { intros (q & Hq & Hfile)%Exists_exists. rewrite Forall_forall in Hdirs.
    assert (q ≠ []) as Hq0 by (by apply elem_of_ancestors_and_self in Hq as [? _]).
    unfold is_file in Hfile. rewrite node_at_lookup, (Hdirs q Hq) in Hfile by done.
    done. }
  rewrite fold_mkdir_one_present; last first.
  { eapply Forall_impl; [done|]. intros q ->. eauto. }
  by rewrite Hnode.
Qed.

Lemma create_new_file_overwrites_witness :
  well_formed Examples.disk
  ∧ is_relative_to (resolve Examples.cwd "a.txt") Examples.cwd = true
  ∧ node_at Examples.disk (resolve Examples.cwd "a.txt") = Some (File "hello")
  ∧ create_new_file Examples.cwd "a.txt" "" Examples.disk
    = ("Successfully created file " +:+ "a.txt",
       <[resolve Examples.cwd "a.txt" := File ""]> Examples.disk).
Proof.
  split; [apply example_well_formed|]. do 2 (split; [evaluate|]).
  apply (create_new_file_overwrites Examples.cwd Examples.disk "a.txt" "" "hello");
    [apply example_well_formed|evaluate..].
Defined.

(** * Further properties of the inference loop *)

Lemma read_file_files (cwd : abs_path) (path : string) (σ : fs) :
  (read_file cwd path σ).2 = σ.
Proof.
  unfold read_file, try_except, bind, get_fs, read_text, ret.
  repeat case_match; by simplify_eq/=.
Qed.

Lemma list_files_files (cwd : abs_path) (path : string) (σ : fs) :
  (list_files cwd path σ).2 = σ.
Proof.
  unfold list_files, try_except, bind, get_fs, ret.
  repeat case_match; by simplify_eq/=.
Qed.

Lemma length_displayed (r : string) :
  String.length (displayed r) ≤ max_display_len + 27.
Proof.
  unfold displayed. destruct (Nat.ltb_spec max_display_len (String.length r)).
  - rewrite str_length_app, str_length_take. simpl String.length. lia.
  - lia.
Qed.

Lemma take_displayed (r : string) :
  Py.take max_display_len (displayed r) = Py.take max_display_len r.
Proof.
  unfold displayed. destruct (Nat.ltb_spec max_display_len (String.length r)); [|done].
  apply take_app_take. lia.
Qed.

(** ** White space *)

Lemma lstrip_split (s : string) :
  ∃ l, s = l +:+ Py.lstrip s ∧ blank l = true.
Proof.
  induction s as [|c s (l & IH & Hl)]; [by exists ""|].
  cbn [Py.lstrip]. destruct (Py.isspace c) eqn:Hc.
  - exists (String c l). split.
    + rewrite str_app_cons. by rewrite <-IH.
    + cbn [blank]. by rewrite Hc, Hl.
  - by exists "".
Qed.

Lemma lstrip_head (s : string) (c : ascii) (r : string) :
  Py.lstrip s = String c r → Py.isspace c = false.
Proof.
  induction s as [|c' s IH]; [done|]. cbn [Py.lstrip].
  destruct (Py.isspace c') eqn:Hc; [done|]. by intros [= <- _].
Qed.

Lemma lstrip_nil (s : string) : Py.lstrip s = "" ↔ blank s = true.
Proof.
  induction s as [|c s IH]; [done|]. cbn [Py.lstrip blank].
  destruct (Py.isspace c); [done|]. by split.
Qed.

Lemma rstrip_nil (s : string) : Py.rstrip s = "" ↔ blank s = true.
Proof.
  induction s as [|c s IH]; [done|]. cbn [Py.rstrip blank].
  destruct (Py.rstrip s) as [|x r].
  - destruct (Py.isspace c); cbn [andb]; [|by split].
    split; [intros _; by apply IH|done].
  - split; [done|]. intros [_ Hs]%andb_prop. by apply IH in Hs.
Qed.

Lemma rstrip_split (s : string) :
  ∃ r, s = Py.rstrip s +:+ r ∧ blank r = true.
Proof.
  induction s as [|c s (r & IH & Hr)]; [by exists ""|].
  cbn [Py.rstrip]. destruct (Py.rstrip s) as [|x t] eqn:Hs.
  - destruct (Py.isspace c) eqn:Hc.
    + exists (String c s). split; [done|]. cbn. rewrite Hc.
      by apply rstrip_nil.
    + exists r. cbn. by rewrite IH at 1.
  - exists r. cbn. by rewrite IH at 1.
Qed.

Lemma rstrip_head (s : string) (c : ascii) (r : string) :
  Py.rstrip s = String c r → ∃ s', s = String c s'.
Proof.
  destruct s as [|c' s]; [done|]. cbn [Py.rstrip].
  destruct (Py.rstrip s); [destruct (Py.isspace c')|]; intros [= <- _]; eauto.
Qed.

Lemma rstrip_last (s : string) (d : ascii) :
  last_char (Py.rstrip s) = Some d → Py.isspace d = false.
Proof.
  induction s as [|c s IH]; [done|]. cbn [Py.rstrip].
  destruct (Py.rstrip s) as [|x t].
  - destruct (Py.isspace c) eqn:Hc; [done|]. by intros [= <-].
  - done.
Qed.

Lemma last_char_cons (c : ascii) (s : string) : is_Some (last_char (String c s)).
Proof.
  revert c. induction s as [|x s IH]; intros c; [by eexists|]. apply (IH x).
Qed.

Lemma strip_nil (s : string) : Py.strip s = "" ↔ blank s = true.
Proof.
  unfold Py.strip. split.
  - intros H. apply rstrip_nil in H. apply lstrip_nil.
    destruct (Py.lstrip s) as [|c r] eqn:Hs; [done|].
    apply lstrip_head in Hs. cbn [blank] in H. by rewrite Hs in H.
  - intros H. apply lstrip_nil in H. by rewrite H.
Qed.

Section AgentMore.

Variable cwd : abs_path.
Variable create : list message → api_result.
Variable json_loads : string → parsed.
Variable type_error_text : string → parsed → string.
Variable ill_typed_call : tool → gmap string pyval → fs → string * fs.

Abbreviation call_with_kwargs := (call_with_kwargs cwd ill_typed_call).
Abbreviation execute_tool_call :=
  (execute_tool_call cwd json_loads type_error_text ill_typed_call).
Abbreviation execute_tool_calls :=
  (execute_tool_calls cwd json_loads type_error_text ill_typed_call).
Abbreviation tool_round :=
  (tool_round cwd json_loads type_error_text ill_typed_call).
Abbreviation run_inference_thread :=
  (run_inference_thread cwd create json_loads type_error_text ill_typed_call).
Abbreviation send_message_event :=
  (send_message_event cwd create json_loads type_error_text ill_typed_call).

(** One tool call, seen from outside: a response [r] is computed in a state
    [a1] that has grown from the announcement of the call; the result is
    displayed, cut, and handed on whole. *)
Lemma execute_tool_call_shape (tc : tool_call) (a : app) :
  ∃ r a1,
    execute_tool_call tc a
    = (add_message_to_display "ToolResult" ("Result: " +:+ displayed r)
         (Some "ToolResult") a1,
       ToolMessage (id tc) (function_name tc) r)
    ∧ (message_queue a
       ++ [("Tool",
            "Calling: " +:+ function_name tc +:+ "(" +:+ function_arguments tc +:+ ")",
            Some "Tool")])
      `prefix_of` message_queue a1.
Proof.
  unfold execute_tool_call, displayed.
  match goal with
  | |- context [match ?m with pair _ _ => _ end] => destruct m as [r a1] eqn:E
  end.
  exists r, a1. split; [done|].
  repeat case_match; simplify_eq/=; try done; by apply prefix_app_r.
Qed.

(** A call that binds its keywords and runs a tool. *)
Lemma execute_tool_call_run (tc : tool_call) (a : app) (f : tool)
    (kw : gmap string pyval) (run : fs → string * fs) :
  available_tools !! function_name tc = Some f →
  json_loads (function_arguments tc) = Dict kw →
  call_with_kwargs f kw = Some run →
  execute_tool_call tc a
  = completed_call tc (run (files a)).1 (run (files a)).2 a.
Proof.
  intros Hf Hkw Hrun. unfold execute_tool_call, completed_call, displayed.
  rewrite Hf, Hkw, Hrun. cbn [files add_message_to_display].
  by destruct (run (files a)).
Qed.

(** A call either fails before a tool is run or runs the tool that its
    keywords select. *)
Lemma execute_tool_call_cases (tc : tool_call) (a : app) :
  (∃ r, execute_tool_call tc a = failed_call tc r a)
  ∨ (∃ f kw run,
       available_tools !! function_name tc = Some f
       ∧ json_loads (function_arguments tc) = Dict kw
       ∧ call_with_kwargs f kw = Some run
       ∧ execute_tool_call tc a
         = completed_call tc (run (files a)).1 (run (files a)).2 a).
Proof.
  destruct (available_tools !! function_name tc) as [f|] eqn:Hf; last first.
  { left. eexists. unfold execute_tool_call, failed_call, displayed.
    by rewrite Hf. }
  destruct (json_loads (function_arguments tc)) as [| |kw|e] eqn:Hkw.
  - left. eexists. unfold execute_tool_call, failed_call, displayed.
    by rewrite Hf, Hkw.
  - left. eexists. unfold execute_tool_call, failed_call, displayed.
    by rewrite Hf, Hkw.
  - destruct (call_with_kwargs f kw) as [run|] eqn:Hrun.
    + right. exists f, kw, run. split_and!; [done..|].
      by apply (execute_tool_call_run tc a f kw run).
    + left. eexists. unfold execute_tool_call, failed_call, displayed.
      by rewrite Hf, Hkw, Hrun.
  - left. eexists. unfold execute_tool_call, failed_call, displayed.
    by rewrite Hf, Hkw.
Qed.

(** What a call that binds its keywords runs. *)
Lemma call_with_kwargs_cases (f : tool) (kw : gmap string pyval)
    (run : fs → string * fs) :
  call_with_kwargs f kw = Some run →
  (f = ReadFile
   ∧ ∃ path, kw !! "path" = Some (PyStr path) ∧ run = read_file cwd path)
  ∨ (f = ListFiles
     ∧ ∃ path, (kw !! "path" = Some (PyStr path) ∨ kw !! "path" = None ∧ path = ".")
               ∧ run = list_files cwd path)
  ∨ (f = EditFile
     ∧ ∃ path old_str new_str,
         kw !! "path" = Some (PyStr path)
         ∧ kw !! "old_str" = Some (PyStr old_str)
         ∧ kw !! "new_str" = Some (PyStr new_str)
         ∧ run = edit_file cwd path old_str new_str)
  ∨ ((∃ k, kw !! k = Some PyOther) ∧ run = ill_typed_call f kw).
Proof.
  assert (∀ (k : string) (X : gset string),
            dom kw = X → k ∈ X → kw !! k = None → False) as Hdom.
  { intros k X <- Hk Hnone. by apply not_elem_of_dom in Hnone. }
  unfold call_with_kwargs. destruct f; case_decide; try done.
  - destruct (kw !! "path") as [[path|]|] eqn:Hp; intros [= <-].
    + left. eauto.
    + do 3 right. eauto.
    + exfalso; eapply (Hdom "path"); [done|set_solver|done].
  - destruct (kw !! "path") as [[path|]|] eqn:Hp; intros [= <-].
    + right; left. eauto.
    + do 3 right. eauto.
    + right; left. split; [done|]. exists ".". eauto.
  - destruct (kw !! "path") as [[path|]|] eqn:Hp;
      [|intros [= <-]; first [by do 3 right; eauto
                             |exfalso; eapply (Hdom "path"); [done|set_solver|done]]..].
    destruct (kw !! "old_str") as [[old_str|]|] eqn:Ho;
      [|intros [= <-]; first [by do 3 right; eauto
                             |exfalso; eapply (Hdom "old_str"); [done|set_solver|done]]..].
    destruct (kw !! "new_str") as [[new_str|]|] eqn:Hn;
      [|intros [= <-]; first [by do 3 right; eauto
                             |exfalso; eapply (Hdom "new_str"); [done|set_solver|done]]..].
    intros [= <-]. do 2 right; left. eauto 10.
Qed.

(** X14.  A tool call that cannot be carried out is answered with an error
    text instead of a tool result, and no tool is run: when the name is not
    one of the three tools, when the arguments are not JSON, when they are
    JSON but not an object or an object whose keys do not fit the
    parameters of the tool, and when decoding them raises another
    exception.  The text is displayed as an error and is the content of the
    tool-result entry; the filesystem stays as it is. *)
Theorem tool_call_failures (tc : tool_call) (a : app) :
  (available_tools !! function_name tc = None →
   execute_tool_call tc a
   = failed_call tc ("Error: Tool '" +:+ function_name tc +:+ "' not found.") a)
  ∧ (is_Some (available_tools !! function_name tc) →
     json_loads (function_arguments tc) = JSONDecodeError →
     execute_tool_call tc a
     = failed_call tc
         ("Error: Invalid JSON arguments received for " +:+ function_name tc
          +:+ ": " +:+ function_arguments tc) a)
  ∧ (∀ f, available_tools !! function_name tc = Some f →
     match json_loads (function_arguments tc) with
     | JSONDecodeError => False
     | NotADict => True
     | Dict kw => call_with_kwargs f kw = None
     | LoadsRaised _ => False
     end →
     execute_tool_call tc a
     = failed_call tc
         ("Error: Invalid arguments for tool " +:+ function_name tc +:+ ": "
          +:+ type_error_text (function_name tc) (json_loads (function_arguments tc))
          +:+ ". Args received: " +:+ function_arguments tc) a)
  ∧ (∀ e, is_Some (available_tools !! function_name tc) →
     json_loads (function_arguments tc) = LoadsRaised e →
     execute_tool_call tc a
     = failed_call tc
         ("Error executing tool " +:+ function_name tc +:+ ": " +:+ e) a)
  ∧ ∀ r, execute_tool_call tc a = failed_call tc r a →
         files (execute_tool_call tc a).1 = files a.
Proof.
  unfold execute_tool_call, failed_call, displayed. split_and!.
  - by intros ->.
  - by intros [f ->] ->.
  - intros f -> Hargs.
    destruct (json_loads (function_arguments tc)) as [| |kw|e]; [done| | |done].
    + done.
    + by rewrite Hargs.
  - by intros e [f ->] ->.
  - by intros r ->.
Qed.

(** X15.  Among the tool calls only those of [edit_file] with its three
    arguments can change the filesystem, and they change it as [edit_file]
    does; any other call that changes it has passed a tool an argument
    that is not a string. *)
Theorem only_edit_file_writes (tc : tool_call) (a : app) :
  files (execute_tool_call tc a).1 ≠ files a →
  ∃ f kw,
    available_tools !! function_name tc = Some f
    ∧ json_loads (function_arguments tc) = Dict kw
    ∧ ((f = EditFile
        ∧ ∃ path old_str new_str,
            kw !! "path" = Some (PyStr path)
            ∧ kw !! "old_str" = Some (PyStr old_str)
            ∧ kw !! "new_str" = Some (PyStr new_str)
            ∧ files (execute_tool_call tc a).1
              = (edit_file cwd path old_str new_str (files a)).2)
       ∨ ((∃ k, kw !! k = Some PyOther)
          ∧ files (execute_tool_call tc a).1
            = (ill_typed_call f kw (files a)).2)).
Proof.
  intros Hfiles.
  destruct (execute_tool_call_cases tc a)
    as [[r Hfail]|(f & kw & run & Hf & Hkw & Hrun & Hcall)].
  { by rewrite Hfail in Hfiles. }
  exists f, kw. split_and!; [done..|].
  rewrite Hcall in Hfiles |- *. cbn [fst files completed_call
    add_message_to_display set_files] in Hfiles |- *.
  destruct (call_with_kwargs_cases f kw run Hrun)
    as [(-> & path & _ & ->)|[(-> & path & _ & ->)
       |[(-> & path & old_str & new_str & Hp & Ho & Hn & ->)|[Hk ->]]]].
  - by rewrite read_file_files in Hfiles.
  - by rewrite list_files_files in Hfiles.
  - left. eauto 10.
  - by right.
Qed.

(** X16.  The tool-result entry carries the whole result of the call, while
    the display gets at most its first 500 characters followed by a mark:
    what is displayed agrees with the result on the first 500 characters,
    is the result itself when that is no longer than 500, and is never
    longer than 527. *)
Theorem tool_result_display_capped (tc : tool_call) (a : app) :
  ∃ r,
    (execute_tool_call tc a).2 = ToolMessage (id tc) (function_name tc) r
    ∧ last (message_queue (execute_tool_call tc a).1)
      = Some ("ToolResult", "Result: " +:+ displayed r, Some "ToolResult")
    ∧ String.length (displayed r) ≤ max_display_len + 27
    ∧ Py.take max_display_len (displayed r) = Py.take max_display_len r
    ∧ (String.length r ≤ max_display_len → displayed r = r)
    ∧ (max_display_len < String.length r →
       displayed r = Py.take max_display_len r +:+ " [... result truncated ...]").
Proof.
  destruct (execute_tool_call_shape tc a) as (r & a1 & -> & _).
  exists r. cbn [fst snd message_queue add_message_to_display].
  split_and!; [done|by rewrite last_snoc|apply length_displayed
              |apply take_displayed|..].
  - intros Hlen. unfold displayed.
    by destruct (Nat.ltb_spec max_display_len (String.length r)); [lia|].
  - intros Hlen. unfold displayed.
    by destruct (Nat.ltb_spec max_display_len (String.length r)); [|lia].
Qed.

(** X17.  A call whose arguments are a JSON object of strings with the
    keys of the tool is answered with what the tool returns: [read_file]
    and [list_files] on their [path], leaving the filesystem as it is,
    [list_files] on [.] when the object is empty, and [edit_file] on its
    three arguments, leaving the filesystem as [edit_file] leaves it. *)
Theorem tool_call_dispatch (tc : tool_call) (a : app) (kw : gmap string pyval) :
  json_loads (function_arguments tc) = Dict kw →
  (∀ path, function_name tc = "read_file" →
     kw = {[ "path" := PyStr path ]} →
     execute_tool_call tc a
     = completed_call tc (read_file cwd path (files a)).1 (files a) a)
  ∧ (∀ path, function_name tc = "list_files" →
       kw = {[ "path" := PyStr path ]} →
       execute_tool_call tc a
       = completed_call tc (list_files cwd path (files a)).1 (files a) a)
  ∧ (function_name tc = "list_files" →
     kw = ∅ →
     execute_tool_call tc a
     = completed_call tc (list_files cwd "." (files a)).1 (files a) a)
  ∧ (∀ path old_str new_str, function_name tc = "edit_file" →
       kw = {[ "path" := PyStr path; "old_str" := PyStr old_str;
               "new_str" := PyStr new_str ]} →
       execute_tool_call tc a
       = completed_call tc (edit_file cwd path old_str new_str (files a)).1
           (edit_file cwd path old_str new_str (files a)).2 a).
Proof.
  intros Hkw. split_and!.
  - intros path Hname Heq.
    rewrite (execute_tool_call_run tc a ReadFile kw (read_file cwd path));
      [by rewrite read_file_files|by rewrite Hname|done|].
    subst kw. unfold call_with_kwargs. rewrite dom_singleton_L, decide_True by done.
    by rewrite lookup_singleton_eq.
  - intros path Hname Heq.
    rewrite (execute_tool_call_run tc a ListFiles kw (list_files cwd path));
      [by rewrite list_files_files|by rewrite Hname|done|].
    subst kw. unfold call_with_kwargs. rewrite dom_singleton_L, decide_True by done.
    by rewrite lookup_singleton_eq.
  - intros Hname Heq.
    rewrite (execute_tool_call_run tc a ListFiles kw (list_files cwd "."));
      [by rewrite list_files_files|by rewrite Hname|done|].
    subst kw. unfold call_with_kwargs. rewrite dom_empty_L, decide_True by set_solver.
    by rewrite lookup_empty.
  - intros path old_str new_str Hname Heq.
    apply (execute_tool_call_run tc a EditFile kw); [by rewrite Hname|done|].
    subst kw. unfold call_with_kwargs.
    rewrite !dom_insert_L, dom_singleton_L, decide_True by set_solver.
    by simplify_map_eq.
Qed.

(** ** The turn *)

Lemma execute_tool_calls_queue (tcs : list tool_call) (a : app) (acc : list message) :
  message_queue a `prefix_of` message_queue (execute_tool_calls tcs a acc).1.
Proof.
  revert a acc. induction tcs as [|tc tcs IH]; intros a acc; [done|].
  rewrite execute_tool_calls_cons. etrans; [|apply IH].
  destruct (execute_tool_call_shape tc a) as (r & a1 & -> & Hq).
  cbn [fst message_queue add_message_to_display].
  etrans; [|by apply prefix_app_r]. by apply prefix_app_r.
Qed.

Lemma tool_round_queue (response_message : response) (a : app) :
  message_queue a `prefix_of` message_queue (tool_round response_message a).
Proof.
  unfold tool_round.
  set (a0 := add_message_to_display _ _ _ _).
  pose proof (execute_tool_calls_queue (tool_calls response_message) a0 []) as Hq.
  destruct (execute_tool_calls _ a0 []) as [a1 ms].
  cbn [fst message_queue extend_history] in *.
  etrans; [|done]. by apply prefix_app_r.
Qed.

Lemma final_answer_queue (response_message : response) (a : app) :
  message_queue (final_answer response_message a)
  = message_queue a
    ++ [match content response_message with
        | Some (String c s) => ("Agent", String c s, None)
        | _ => ("System", "[Model returned no text content]", Some "System")
        end].
Proof. unfold final_answer. by destruct (content response_message) as [[|??]|]. Qed.

(** X18.  A turn only appends: the history, the entries put on the display
    queue, the requests submitted and the error dialogs of the state in
    which the turn starts are still there, in their order and at the
    front, when it ends. *)
Theorem turn_only_appends (fuel : nat) (a final : app) :
  run_inference_thread fuel a = Some final →
  conversation_history a `prefix_of` conversation_history final
  ∧ message_queue a `prefix_of` message_queue final
  ∧ requests a `prefix_of` requests final
  ∧ error_boxes a `prefix_of` error_boxes final.
Proof.
  revert a. induction fuel as [|fuel IH]; intros a Hrun; [done|].
  rewrite run_inference_thread_S in Hrun.
  destruct (create (conversation_history a)) as [r|e|e].
  - destruct (tool_calls r) eqn:Htc.
    + simplify_eq.
      destruct (final_answer_spec r (log_request a)) as (-> & -> & -> & _).
      rewrite final_answer_queue. cbn [log_request conversation_history message_queue requests error_boxes].
      split_and!; first [done|by apply prefix_app_r].
    + apply IH in Hrun as (Hh & Hq & Hr & He).
      destruct (tool_round_spec cwd json_loads type_error_text ill_typed_call
                  r (log_request a)) as (results & Hh' & _ & Hr' & He' & _).
      pose proof (tool_round_queue r (log_request a)) as Hq'.
      rewrite Hh' in Hh. rewrite Hr' in Hr. rewrite He' in He.
      cbn [log_request conversation_history message_queue requests error_boxes] in Hh, Hr, He, Hq'.
      split_and!.
      * etrans; [|done]. by apply prefix_app_r.
      * by etrans.
      * etrans; [|done]. by apply prefix_app_r.
      * done.
  - simplify_eq. cbn [api_failure set_input showerror add_message_to_display
      log_request conversation_history message_queue requests error_boxes].
    split_and!; first [done|by apply prefix_app_r].
  - simplify_eq. cbn [api_failure set_input showerror add_message_to_display
      log_request conversation_history message_queue requests error_boxes].
    split_and!; first [done|by apply prefix_app_r].
Qed.

(** X19.  How a turn ends.  The input is enabled again, and the last
    history submitted decides the rest: on a response, which then has no
    tool calls, the response is appended to that history, its text (or, when
    it has none, a notice) is the last entry displayed and no error dialog
    has been shown in the turn; on an exception nothing is appended to
    that history, so what earlier rounds appended stays, the error text is
    the last entry displayed, and one error dialog with it has been shown. *)
Theorem turn_outcome (fuel : nat) (a final : app) :
  run_inference_thread fuel a = Some final →
  input_enabled final = true
  ∧ ∃ h,
      last (requests final) = Some h
      ∧ match create h with
        | Completion response_message =>
            tool_calls response_message = []
            ∧ conversation_history final = h ++ [AssistantMessage response_message]
            ∧ last (message_queue final)
              = Some match content response_message with
                     | Some (String c s) => ("Agent", String c s, None)
                     | _ => ("System", "[Model returned no text content]",
                             Some "System")
                     end
            ∧ error_boxes final = error_boxes a
        | RaisedAPIError e =>
            conversation_history final = h
            ∧ last (message_queue final)
              = Some ("Error", "OpenAI API Error: " +:+ e, Some "Error")
            ∧ error_boxes final
              = error_boxes a ++ [("API Error", "OpenAI API Error: " +:+ e)]
        | RaisedException e =>
            conversation_history final = h
            ∧ last (message_queue final)
              = Some ("Error", "An unexpected error occurred: " +:+ e, Some "Error")
            ∧ error_boxes final
              = error_boxes a ++ [("Error", "An unexpected error occurred: " +:+ e)]
        end.
Proof.
  revert a. induction fuel as [|fuel IH]; intros a Hrun; [done|].
  rewrite run_inference_thread_S in Hrun.
  destruct (create (conversation_history a)) as [r|e|e] eqn:Hcreate.
  - destruct (tool_calls r) eqn:Htc.
    + simplify_eq.
      destruct (final_answer_spec r (log_request a)) as (Hh & Hr & He & Hi).
      split; [done|]. exists (conversation_history a).
      rewrite Hr, Hcreate, Hh, He, final_answer_queue. cbn.
      by rewrite !last_snoc.
    + apply IH in Hrun as (Hi & h & Hlast & Hcase).
      destruct (tool_round_spec cwd json_loads type_error_text ill_typed_call
                  r (log_request a)) as (results & _ & _ & _ & He' & _).
      rewrite He' in Hcase. cbn in Hcase.
      split; [done|]. by exists h.
  - simplify_eq. split; [done|]. exists (conversation_history a).
    cbn. by rewrite !last_snoc, Hcreate.
  - simplify_eq. split; [done|]. exists (conversation_history a).
    cbn. by rewrite !last_snoc, Hcreate.
Qed.

Lemma well_answered_app (l1 l2 : list message) :
  well_answered l1 → well_answered l2 → well_answered (l1 ++ l2).
Proof.
  intros H1 H2. induction H1 as [|text rest _ IH|r results rest Hres _ IH].
  - done.
  - by constructor.
  - cbn. rewrite <-app_assoc. by constructor.
Qed.

Lemma well_answered_round (r : response) (results : list message) :
  Forall2 answers (tool_calls r) results →
  well_answered (AssistantMessage r :: results).
Proof.
  intros Hres. rewrite <-(app_nil_r results). constructor; [done|constructor].
Qed.

Lemma run_keeps_well_answered (fuel : nat) (a final : app) :
  well_answered (conversation_history a) →
  Forall well_answered (requests a) →
  run_inference_thread fuel a = Some final →
  well_answered (conversation_history final)
  ∧ Forall well_answered (requests final).
Proof.
  revert a. induction fuel as [|fuel IH]; intros a Hwa Hreq Hrun; [done|].
  rewrite run_inference_thread_S in Hrun.
  assert (Forall well_answered (requests a ++ [conversation_history a])) as Hreq'.
  { apply Forall_app. split; [done|by constructor]. }
  destruct (create (conversation_history a)) as [r|e|e].
  - destruct (tool_calls r) eqn:Htc.
    + simplify_eq.
      destruct (final_answer_spec r (log_request a)) as (-> & -> & _).
      split; [|done]. apply well_answered_app; [done|].
      apply well_answered_round. rewrite Htc. constructor.
    + destruct (tool_round_spec cwd json_loads type_error_text ill_typed_call
                  r (log_request a)) as (results & Hh & Hres & Hr & _).
      apply IH in Hrun; [done| |by rewrite Hr].
      rewrite Hh. apply well_answered_app; [done|].
      by apply well_answered_round.
  - by simplify_eq.
  - by simplify_eq.
Qed.

(** X20.  Every history that is submitted to the endpoint is well
    answered: each response in it is followed by one tool-result entry for
    each of its tool calls, with the id and the tool name of the call and in
    the order of the calls, and tool results stand nowhere else.  A turn
    keeps this for the history and for the requests; the empty history of a
    new application has it. *)
Theorem histories_well_answered (fuel : nat) (entry_text : string) (a final : app) :
  well_answered (conversation_history a) →
  Forall well_answered (requests a) →
  send_message_event fuel entry_text a = Some final →
  well_answered (conversation_history final)
  ∧ Forall well_answered (requests final).
Proof.
  intros Hwa Hreq. unfold send_message_event. case_decide.
  - by intros [= <-].
  - apply run_keeps_well_answered; [|done].
    apply well_answered_app; [done|]. repeat constructor.
Qed.

(** X21.  Input that is white space only is ignored: nothing is displayed,
    appended or submitted.  Of any other input the text between its leading
    and its trailing white space is displayed and appended to the history
    as the message of the user, the input is disabled, and the thread runs
    from there; this text begins and ends with a character that is not
    white space. *)
Theorem send_message_event_strips (fuel : nat) (entry_text : string) (a : app) :
  (blank entry_text = true → send_message_event fuel entry_text a = Some a)
  ∧ (blank entry_text = false →
     ∃ before user_input after_ c s d,
       entry_text = before +:+ user_input +:+ after_
       ∧ blank before = true ∧ blank after_ = true
       ∧ user_input = String c s ∧ Py.isspace c = false
       ∧ last_char user_input = Some d ∧ Py.isspace d = false
       ∧ send_message_event fuel entry_text a
         = run_inference_thread fuel
             (App (files a) (conversation_history a ++ [UserMessage user_input])
                (message_queue a ++ [("You", user_input, None)]) false
                (error_boxes a) (requests a))).
Proof.
  unfold send_message_event. split; intros Hblank.
  - apply strip_nil in Hblank. by rewrite decide_True.
  - destruct (lstrip_split entry_text) as (before & Hl & Hbefore).
    destruct (rstrip_split (Py.lstrip entry_text)) as (after_ & Hr & Hafter).
    fold (Py.strip entry_text) in Hr.
    destruct (Py.strip entry_text) as [|c s] eqn:Hstrip.
    { apply strip_nil in Hstrip. congruence. }
    destruct (last_char_cons c s) as [d Hd].
    exists before, (String c s), after_, c, s, d.
    rewrite decide_False by done.
    split_and!; [by rewrite <-Hr|done|done|done| |done| |done].
    + unfold Py.strip in Hstrip. apply rstrip_head in Hstrip as [s' Hs'].
      by apply lstrip_head in Hs'.
    + rewrite <-Hstrip in Hd. by apply rstrip_last in Hd.
Qed.

Lemma keys_exactly (X : gset string) (req props : list string) (Y : gset string) :
  list_to_set req = Y → list_to_set props = Y →
  X = Y ↔ list_to_set req ⊆ X ∧ X ⊆ list_to_set props.
Proof.
  intros -> <-. split; [by intros ->|].
  intros [??]. by apply (anti_symm (⊆)).
Qed.

Lemma keys_at_most (X : gset string) (props : list string) (Y : gset string) :
  list_to_set props = Y →
  X ⊆ Y ↔ list_to_set [] ⊆ X ∧ X ⊆ list_to_set props.
Proof.
  intros <-. split; [|by intros [_ ?]].
  intros ?. split; [apply empty_subseteq|done].
Qed.

Lemma list_to_set_1 (x : string) : (list_to_set [x] : gset string) = {[ x ]}.
Proof. cbn. by rewrite (right_id_L ∅ (∪)). Qed.

Lemma list_to_set_3 (x y z : string) :
  (list_to_set [x; y; z] : gset string) = {[ x; y; z ]}.
Proof. cbn. by rewrite (right_id_L ∅ (∪)), (assoc_L (∪)). Qed.

Lemma call_with_kwargs_accepts (f : tool) (kw : gmap string pyval) :
  is_Some (call_with_kwargs f kw)
  ↔ match f with
    | ReadFile => dom kw = {[ "path" ]}
    | ListFiles => dom kw ⊆ {[ "path" ]}
    | EditFile => dom kw = {[ "path"; "old_str"; "new_str" ]}
    end.
Proof.
  unfold call_with_kwargs.
  destruct f; case_decide; (split; [by first [done|intros []]|]); intros ?;
    first [done|repeat case_match; by eexists].
Qed.

(** X22.  The descriptions of the tools that are sent with every request
    fit the tools: the names described are the names of the registry, every
    parameter is described as a string, and a JSON object is accepted as
    the arguments of a tool exactly when it has every key that the
    description requires and no key that it does not describe. *)
Theorem schema_matches_signatures :
  (∀ n, n ∈ name <$> tools_openai_format ↔ is_Some (available_tools !! n))
  ∧ ∀ d, d ∈ tools_openai_format →
      (∀ p, p ∈ properties d → property_type p = "string")
      ∧ ∃ f, available_tools !! name d = Some f
          ∧ ∀ kw, is_Some (call_with_kwargs f kw)
                  ↔ list_to_set (required d) ⊆ dom kw
                    ∧ dom kw ⊆ list_to_set (property_name <$> properties d).
Proof.
  split.
  - intros n. unfold tools_openai_format. cbn [fmap list_fmap name].
    rewrite !elem_of_cons, elem_of_nil. split.
    + intros [->|[->|[->|[]]]]; by eexists.
    + intros [f Hf]. unfold available_tools in Hf.
      apply lookup_insert_Some in Hf as [[<- _]|[_ Hf]]; [by left|].
      apply lookup_insert_Some in Hf as [[<- _]|[_ Hf]]; [by right; left|].
      apply lookup_singleton_Some in Hf as [<- _]. by right; right; left.
  - intros d Hd. unfold tools_openai_format in Hd.
    apply elem_of_cons in Hd as [->|Hd]; [|apply elem_of_cons in Hd as [->|Hd];
      [|apply elem_of_cons in Hd as [->|Hd]; [|by apply elem_of_nil in Hd]]];
      cbn [properties name required fmap list_fmap property_name];
      (split;
       [intros p Hp;
        repeat (apply elem_of_cons in Hp as [->|Hp]; [done|]);
        by apply elem_of_nil in Hp|]).
    + exists ReadFile. split; [done|]. intros kw.
      rewrite call_with_kwargs_accepts.
      apply keys_exactly; apply list_to_set_1.
    + exists ListFiles. split; [done|]. intros kw.
      rewrite call_with_kwargs_accepts.
      apply keys_at_most, list_to_set_1.
    + exists EditFile. split; [done|]. intros kw.
      rewrite call_with_kwargs_accepts.
      apply keys_exactly; apply list_to_set_3.
Qed.

End AgentMore.

Lemma tool_call_failures_witness :
  (available_tools !! function_name Calls.unknown_tool = None
   ∧ execute_tool_call Examples.cwd Calls.json_loads Examples.type_error_text
       Examples.ill_typed_call Calls.unknown_tool Examples.started
     = failed_call Calls.unknown_tool "Error: Tool 'delete_file' not found."
         Examples.started)
  ∧ (is_Some (available_tools !! function_name Calls.not_json)
     ∧ Calls.json_loads (function_arguments Calls.not_json) = JSONDecodeError
     ∧ execute_tool_call Examples.cwd Calls.json_loads Examples.type_error_text
         Examples.ill_typed_call Calls.not_json Examples.started
       = failed_call Calls.not_json
           "Error: Invalid JSON arguments received for read_file: path=a.txt"
           Examples.started)
  ∧ (available_tools !! function_name Calls.wrong_key = Some ReadFile
     ∧ match Calls.json_loads (function_arguments Calls.wrong_key) with
       | JSONDecodeError => False
       | NotADict => True
       | Dict kw => call_with_kwargs Examples.cwd Examples.ill_typed_call ReadFile kw
                    = None
       | LoadsRaised _ => False
       end
     ∧ execute_tool_call Examples.cwd Calls.json_loads Examples.type_error_text
         Examples.ill_typed_call Calls.wrong_key Examples.started
       = failed_call Calls.wrong_key
           ("Error: Invalid arguments for tool read_file: "
            +:+ Examples.type_error_text "read_file"
                  (Calls.json_loads (function_arguments Calls.wrong_key))
            +:+ ". Args received: " +:+ Calls.args_file)
           Examples.started)
  ∧ (is_Some (available_tools !! function_name Calls.too_many_digits)
     ∧ Calls.json_loads (function_arguments Calls.too_many_digits)
       = LoadsRaised
           "Exceeds the limit (4300 digits) for integer string conversion: value has 5001 digits; use sys.set_int_max_str_digits() to increase the limit"
     ∧ execute_tool_call Examples.cwd Calls.json_loads Examples.type_error_text
         Examples.ill_typed_call Calls.too_many_digits Examples.started
       = failed_call Calls.too_many_digits
           ("Error executing tool read_file: "
            +:+ "Exceeds the limit (4300 digits) for integer string conversion: value has 5001 digits; use sys.set_int_max_str_digits() to increase the limit")
           Examples.started).
Proof.
  split_and!.
  - evaluate.
  - apply (tool_call_failures Examples.cwd Calls.json_loads Examples.type_error_text
             Examples.ill_typed_call Calls.unknown_tool Examples.started).
    evaluate.
  - eexists. evaluate.
  - evaluate.
  - apply (tool_call_failures Examples.cwd Calls.json_loads Examples.type_error_text
             Examples.ill_typed_call Calls.not_json Examples.started).
    + eexists. evaluate.
    + evaluate.
  - evaluate.
  - vm_compute. reflexivity.
  - destruct (tool_call_failures Examples.cwd Calls.json_loads
                Examples.type_error_text Examples.ill_typed_call
                Calls.wrong_key Examples.started) as (_ & _ & Hkeys & _).
    apply (Hkeys ReadFile).
    + evaluate.
    + vm_compute. reflexivity.
  - eexists. evaluate.
  - evaluate.
  - destruct (tool_call_failures Examples.cwd Calls.json_loads
                Examples.type_error_text Examples.ill_typed_call
                Calls.too_many_digits Examples.started) as (_ & _ & _ & Hraised & _).
    apply Hraised.
    + eexists. evaluate.
    + evaluate.
Defined.

Lemma only_edit_file_writes_witness :
  files (execute_tool_call Examples.cwd Calls.json_loads Examples.type_error_text
           Examples.ill_typed_call Calls.edit_call Examples.started).1
  ≠ files Examples.started
  ∧ ∃ f kw,
      available_tools !! function_name Calls.edit_call = Some f
      ∧ Calls.json_loads (function_arguments Calls.edit_call) = Dict kw
      ∧ ((f = EditFile
          ∧ ∃ path old_str new_str,
              kw !! "path" = Some (PyStr path)
              ∧ kw !! "old_str" = Some (PyStr old_str)
              ∧ kw !! "new_str" = Some (PyStr new_str)
              ∧ files (execute_tool_call Examples.cwd Calls.json_loads
                         Examples.type_error_text Examples.ill_typed_call
                         Calls.edit_call Examples.started).1
                = (edit_file Examples.cwd path old_str new_str
                     (files Examples.started)).2)
         ∨ ((∃ k, kw !! k = Some PyOther)
            ∧ files (execute_tool_call Examples.cwd Calls.json_loads
                       Examples.type_error_text Examples.ill_typed_call
                       Calls.edit_call Examples.started).1
              = (Examples.ill_typed_call f kw (files Examples.started)).2)).
Proof.
  assert (files (execute_tool_call Examples.cwd Calls.json_loads
                   Examples.type_error_text Examples.ill_typed_call
                   Calls.edit_call Examples.started).1
          ≠ files Examples.started) as Hchanged.
  { intros H.
    apply (f_equal (λ σ : fs, σ !! (Examples.cwd ++ ["new.txt"]))) in H.
    vm_compute in H. discriminate H. }
  split; [done|].
  by apply (only_edit_file_writes Examples.cwd Calls.json_loads
              Examples.type_error_text Examples.ill_typed_call
              Calls.edit_call Examples.started).
Defined.

Lemma tool_call_dispatch_witness :
  (Calls.json_loads (function_arguments Calls.read_call)
   = Dict {[ "path" := PyStr "a.txt" ]}
   ∧ function_name Calls.read_call = "read_file"
   ∧ execute_tool_call Examples.cwd Calls.json_loads Examples.type_error_text
       Examples.ill_typed_call Calls.read_call Examples.started
     = completed_call Calls.read_call
         (read_file Examples.cwd "a.txt" (files Examples.started)).1
         (files Examples.started) Examples.started)
  ∧ (Calls.json_loads (function_arguments Calls.list_call) = Dict ∅
     ∧ function_name Calls.list_call = "list_files"
     ∧ execute_tool_call Examples.cwd Calls.json_loads Examples.type_error_text
         Examples.ill_typed_call Calls.list_call Examples.started
       = completed_call Calls.list_call
           (list_files Examples.cwd "." (files Examples.started)).1
           (files Examples.started) Examples.started)
  ∧ (Calls.json_loads (function_arguments Calls.edit_call) = Dict Calls.kw_edit
     ∧ function_name Calls.edit_call = "edit_file"
     ∧ execute_tool_call Examples.cwd Calls.json_loads Examples.type_error_text
         Examples.ill_typed_call Calls.edit_call Examples.started
       = completed_call Calls.edit_call
           (edit_file Examples.cwd "new.txt" "" "hi" (files Examples.started)).1
           (edit_file Examples.cwd "new.txt" "" "hi" (files Examples.started)).2
           Examples.started).
Proof.
  split_and!.
  - evaluate.
  - evaluate.
  - destruct (tool_call_dispatch Examples.cwd Calls.json_loads
                Examples.type_error_text Examples.ill_typed_call
                Calls.read_call Examples.started {[ "path" := PyStr "a.txt" ]})
      as (Hread & _); [evaluate|].
    apply (Hread "a.txt"); evaluate.
  - evaluate.
  - evaluate.
  - destruct (tool_call_dispatch Examples.cwd Calls.json_loads
                Examples.type_error_text Examples.ill_typed_call
                Calls.list_call Examples.started ∅)
      as (_ & _ & Hlist & _); [evaluate|].
    apply Hlist; evaluate.
  - evaluate.
  - evaluate.
  - destruct (tool_call_dispatch Examples.cwd Calls.json_loads
                Examples.type_error_text Examples.ill_typed_call
                Calls.edit_call Examples.started Calls.kw_edit)
      as (_ & _ & _ & Hedit); [evaluate|].
    apply (Hedit "new.txt" "" "hi"); evaluate.
Defined.

Lemma example_turn :
  run_inference_thread Examples.cwd (Examples.create_rounds 1) Examples.json_loads
    Examples.type_error_text Examples.ill_typed_call 2 Examples.started
  = Some Calls.ended.
Proof. vm_compute. reflexivity. Qed.

Lemma turn_only_appends_witness :
  run_inference_thread Examples.cwd (Examples.create_rounds 1) Examples.json_loads
    Examples.type_error_text Examples.ill_typed_call 2 Examples.started
  = Some Calls.ended
  ∧ conversation_history Examples.started `prefix_of` conversation_history Calls.ended
  ∧ message_queue Examples.started `prefix_of` message_queue Calls.ended
  ∧ requests Examples.started `prefix_of` requests Calls.ended
  ∧ error_boxes Examples.started `prefix_of` error_boxes Calls.ended.
Proof.
  split; [apply example_turn|].
  apply (turn_only_appends Examples.cwd (Examples.create_rounds 1)
           Examples.json_loads Examples.type_error_text Examples.ill_typed_call
           2 Examples.started Calls.ended example_turn).
Defined.

Lemma turn_outcome_witness :
  run_inference_thread Examples.cwd Calls.create_down Examples.json_loads
    Examples.type_error_text Examples.ill_typed_call 1 Examples.started
  = Some Calls.failed
  ∧ input_enabled Calls.failed = true
  ∧ ∃ h,
      last (requests Calls.failed) = Some h
      ∧ conversation_history Calls.failed = h
      ∧ last (message_queue Calls.failed)
        = Some ("Error", "OpenAI API Error: Connection error.", Some "Error")
      ∧ error_boxes Calls.failed
        = error_boxes Examples.started
          ++ [("API Error", "OpenAI API Error: Connection error.")].
Proof.
  split; [reflexivity|].
  apply (turn_outcome Examples.cwd Calls.create_down Examples.json_loads
           Examples.type_error_text Examples.ill_typed_call
           1 Examples.started Calls.failed).
  reflexivity.
Defined.

Lemma histories_well_answered_witness :
  well_answered (conversation_history Calls.idle)
  ∧ Forall well_answered (requests Calls.idle)
  ∧ send_message_event Examples.cwd (Examples.create_rounds 1) Examples.json_loads
      Examples.type_error_text Examples.ill_typed_call 2 " go " Calls.idle
    = Some Calls.ended
  ∧ well_answered (conversation_history Calls.ended)
  ∧ Forall well_answered (requests Calls.ended).
Proof.
  assert (send_message_event Examples.cwd (Examples.create_rounds 1)
            Examples.json_loads Examples.type_error_text Examples.ill_typed_call
            2 " go " Calls.idle = Some Calls.ended) as Hturn
    by (vm_compute; reflexivity).
  split; [constructor|]. split; [constructor|]. split; [done|].
  apply (histories_well_answered Examples.cwd (Examples.create_rounds 1)
           Examples.json_loads Examples.type_error_text Examples.ill_typed_call
           2 " go " Calls.idle Calls.ended); [constructor|constructor|done].
Defined.

Lemma send_message_event_strips_witness :
  (blank ("  " +:+ TAB) = true
   ∧ send_message_event Examples.cwd (Examples.create_rounds 1) Examples.json_loads
       Examples.type_error_text Examples.ill_typed_call 2 ("  " +:+ TAB) Calls.idle
     = Some Calls.idle)
  ∧ (blank " go " = false
     ∧ ∃ before user_input after_ c s d,
         " go " = before +:+ user_input +:+ after_
         ∧ blank before = true ∧ blank after_ = true
         ∧ user_input = String c s ∧ Py.isspace c = false
         ∧ last_char user_input = Some d ∧ Py.isspace d = false
         ∧ send_message_event Examples.cwd (Examples.create_rounds 1)
             Examples.json_loads Examples.type_error_text Examples.ill_typed_call
             2 " go " Calls.idle
           = run_inference_thread Examples.cwd (Examples.create_rounds 1)
               Examples.json_loads Examples.type_error_text Examples.ill_typed_call 2
               (App (files Calls.idle)
                  (conversation_history Calls.idle ++ [UserMessage user_input])
                  (message_queue Calls.idle ++ [("You", user_input, None)]) false
                  (error_boxes Calls.idle) (requests Calls.idle))).
Proof.
  split; (split; [evaluate|]).
  - apply (send_message_event_strips Examples.cwd (Examples.create_rounds 1)
             Examples.json_loads Examples.type_error_text Examples.ill_typed_call
             2 ("  " +:+ TAB) Calls.idle).
    evaluate.
  - apply (send_message_event_strips Examples.cwd (Examples.create_rounds 1)
             Examples.json_loads Examples.type_error_text Examples.ill_typed_call
             2 " go " Calls.idle).
    evaluate.
Defined.

Lemma schema_matches_signatures_witness :
  Calls.first_schema ∈ tools_openai_format
  ∧ (∀ p, p ∈ properties Calls.first_schema → property_type p = "string")
  ∧ ∃ f, available_tools !! name Calls.first_schema = Some f
      ∧ ∀ kw, is_Some (call_with_kwargs Examples.cwd Examples.ill_typed_call f kw)
              ↔ list_to_set (required Calls.first_schema) ⊆ dom kw
                ∧ dom kw
                  ⊆ list_to_set (property_name <$> properties Calls.first_schema).
Proof.
  assert (Calls.first_schema ∈ tools_openai_format) as Hin by constructor.
  split; [done|].
  by apply (schema_matches_signatures Examples.cwd Examples.ill_typed_call).
Defined.

(** * The display *)

Lemma text_of_app (t u : text_area) : text_of (t ++ u) = text_of t +:+ text_of u.
Proof.
  induction t as [|piece t IH]; [done|].
  change (text_of ((piece :: t) ++ u)) with (piece.1 +:+ text_of (t ++ u)).
  change (text_of (piece :: t)) with (piece.1 +:+ text_of t).
  by rewrite IH, str_app_assoc.
Qed.

Lemma text_of_internal (role content : string) (tag : option string) (t : text_area) :
  text_of (_add_message_to_display_internal role content tag t)
  = text_of t +:+ line_of (role, content, tag).
Proof.
  unfold _add_message_to_display_internal, line_of.
  destruct tag as [[|c s]|]; rewrite text_of_app; cbn;
    by rewrite str_app_nil_r, !str_app_assoc.
Qed.

(** X23.  The display shows the entries of the queue in the order in which
    they were put there, each as a line of its role, a colon and a space,
    and its content, after what it showed before; the queue is left
    empty; and the display ends the same however the entries are shared
    out between the polls of the queue. *)
Theorem display_in_order (queue later : list (string * string * option string))
    (t : text_area) :
  (process_message_queue queue t).1 = []
  ∧ text_of (process_message_queue queue t).2
    = text_of t +:+ foldr (λ entry s, line_of entry +:+ s) "" queue
  ∧ process_message_queue (queue ++ later) t
    = process_message_queue later (process_message_queue queue t).2.
Proof.
  revert t. induction queue as [|[[role content] tag] queue IH]; intros t.
  - cbn. by rewrite str_app_nil_r.
  - rewrite <-app_comm_cons. cbn [process_message_queue foldr].
    destruct (IH (_add_message_to_display_internal role content tag t))
      as (-> & -> & ->).
    by rewrite text_of_internal, str_app_assoc.
Qed.

(** * Editing, then reading *)





